(** * ghc-eventlog-socket: the writer bridge, the listener loop and start-up

    A shallow embedding of [eventlog_socket.c].  The C file keeps three
    globals ([initialized], [listen_fd], [client_fd]), talks to the
    operating system through system calls and to the GHC run-time system
    through three hooks ([startEventLogging], [endEventLogging],
    [eventLogStatus]) and the [RtsFlags] record.

    - Globals and the part of the run-time system the file touches are an
      explicit [state] record.
    - Every system call, library call and hook invocation is recorded as an
      [event]; a C function is a computation in the monad [M], which threads
      the state, appends to the trace and ends in one of three outcomes:
      a normal return, [abort()], or still waiting inside a blocking call.
    - What the operating system answers is an argument of the function that
      makes the call (the return values of the successive [write] calls, of
      [bind], of [pthread_create], ...), so every definition is executable.
    - The listener thread is a step function over program points, so that it
      can be interleaved with the producer's calls into the writer. *)

From Stdlib Require Import ZArith List Bool String Ascii Lia.
From Stdlib Require Import Strings.Byte.
From Stdlib Require Import Btauto.
Import ListNotations.

Local Open Scope string_scope.
Local Open Scope list_scope.
Local Open Scope Z_scope.

(** ** The producer's side: what [Rts.h] provides *)

Inductive EventLogStatus : Type :=
| EVENTLOG_NOT_SUPPORTED
| EVENTLOG_NOT_CONFIGURED
| EVENTLOG_RUNNING.

Inductive TraceKind : Type := TRACE_NONE | TRACE_EVENTLOG | TRACE_STDERR.

(** [RtsFlags.TraceFlags], the fields [eventlog_socket.c] assigns. *)
Record TRACE_FLAGS : Type := mkTraceFlags {
  tracing        : TraceKind;
  timestamp      : bool;
  scheduler      : bool;
  gc             : bool;
  nonmoving_gc   : bool;
  sparks_sampled : bool;
  sparks_full    : bool;
  ticky          : bool;
  user           : bool
}.

(** Which [EventLogWriter] the producer currently emits through:
    [socket_writer] of this file, or one installed by somebody else. *)
Inductive writer_id : Type := socket_writer | foreign_writer.

(** ** Program state *)

Record state : Type := mkState {
  initialized      : bool;            (* static bool initialized = false *)
  listen_fd        : Z;               (* static int listen_fd = -1 *)
  client_fd        : Z;               (* static volatile int client_fd = -1 *)
  eventLogStatus   : EventLogStatus;  (* what eventLogStatus() answers *)
  event_log_writer : option writer_id;
  TraceFlags       : TRACE_FLAGS
}.

Definition set_initialized (b : bool) (s : state) : state :=
  mkState b (listen_fd s) (client_fd s) (eventLogStatus s)
          (event_log_writer s) (TraceFlags s).

Definition set_listen_fd (v : Z) (s : state) : state :=
  mkState (initialized s) v (client_fd s) (eventLogStatus s)
          (event_log_writer s) (TraceFlags s).

Definition set_client_fd (v : Z) (s : state) : state :=
  mkState (initialized s) (listen_fd s) v (eventLogStatus s)
          (event_log_writer s) (TraceFlags s).

Definition set_status (e : EventLogStatus) (w : option writer_id)
           (s : state) : state :=
  mkState (initialized s) (listen_fd s) (client_fd s) e w (TraceFlags s).

Definition set_TraceFlags (f : TRACE_FLAGS) (s : state) : state :=
  mkState (initialized s) (listen_fd s) (client_fd s) (eventLogStatus s)
          (event_log_writer s) f.

(** The globals as the C file initialises them, in a run-time system that
    answers [st] to [eventLogStatus()]. *)
Definition initial_state (st : EventLogStatus) (w : option writer_id)
           (f : TRACE_FLAGS) : state :=
  mkState false (-1) (-1) st w f.

(** The current client as the write path reads it: [fd < 0] means none. *)
Definition ActiveClient (s : state) : option Z :=
  if client_fd s <? 0 then None else Some (client_fd s).

(** ** Observable events *)

Inductive event : Type :=
| EvMutexInit
| EvCondInit
| EvLock
| EvUnlock
| EvCondWait (ret : Z)
| EvBroadcast
| EvWrite (fd : Z) (data : list byte) (ret : Z)
| EvClose (fd : Z)
| EvSocket (ret : Z)
| EvUnlink (path : string)
| EvBind (fd : Z) (copied : string) (terminated : bool) (ret : Z)
| EvListen (fd backlog ret : Z)
| EvAccept (fd ret : Z)
| EvPoll (fd ret errno : Z)
| EvThreadCreate (ret : Z)
| EvGetenv (name : string)
| EvStartLogging
| EvEndLogging
| EvPrintErr (msg : string)
| EvPrintf (msg : string)
| EvErrorBelch (msg : string)
| EvAbort.

(** ** The monad of C functions *)

Inductive outcome (A : Type) : Type :=
| Ret (a : A)   (* the function returned [a] *)
| Aborted       (* the process called abort() *)
| Blocked.      (* the last call has not returned *)

Arguments Ret {A} a.
Arguments Aborted {A}.
Arguments Blocked {A}.

Record result (A : Type) : Type := mkRes {
  out   : outcome A;
  post  : state;
  trace : list event
}.

Arguments mkRes {A} out post trace.
Arguments out {A} r.
Arguments post {A} r.
Arguments trace {A} r.

Definition M (A : Type) : Type := state -> result A.

Definition ret {A : Type} (a : A) : M A := fun s => mkRes (Ret a) s [].

Definition bind {A B : Type} (m : M A) (f : A -> M B) : M B :=
  fun s =>
    match m s with
    | mkRes (Ret a) s1 t1 =>
        match f a s1 with
        | mkRes o s2 t2 => mkRes o s2 (t1 ++ t2)
        end
    | mkRes Aborted s1 t1 => mkRes Aborted s1 t1
    | mkRes Blocked s1 t1 => mkRes Blocked s1 t1
    end.

Declare Scope c_scope.
Delimit Scope c_scope with c.
Notation "x <- m ;; k" := (bind m (fun x => k))
  (at level 61, m at next level, right associativity) : c_scope.
Notation "m ;; k" := (bind m (fun _ => k))
  (at level 61, right associativity) : c_scope.
Local Open Scope c_scope.

Definition emit (e : event) : M unit := fun s => mkRes (Ret tt) s [e].
Definition get {A : Type} (f : state -> A) : M A := fun s => mkRes (Ret (f s)) s [].
Definition modify (f : state -> state) : M unit := fun s => mkRes (Ret tt) (f s) [].
Definition abort {A : Type} : M A := fun s => mkRes Aborted s [EvAbort].
Definition blocked {A : Type} : M A := fun s => mkRes Blocked s [].

(** [PRINT_ERR(...)]: a line on stderr; the text after the fixed prefix is
    kept without the [strerror] part. *)
Definition PRINT_ERR (msg : string) : M unit := emit (EvPrintErr msg).

(** ** Machine integers *)

(** [int ret = write(...)]: the [ssize_t] result stored in an [int]. *)
Definition to_int (r : Z) : Z := (r + 2 ^ 31) mod 2 ^ 32 - 2 ^ 31.

(** [sz -= ret] on a [size_t]: [ret] is converted to [size_t] and the
    subtraction wraps modulo 2^64. *)
Definition size_sub (sz ret : Z) : Z := (sz - ret) mod 2 ^ 64.

Definition LISTEN_BACKLOG : Z := 5.
Definition EAGAIN : Z := 11.

(** ** EventLogWriter *)

Definition writer_init : M unit := ret tt.

(** The loop of [writer_write].  [rets] holds what the successive [write]
    calls return; with none left the thread is still inside [write].  The
    call always passes the pointer [eventlog] itself, so what it offers the
    kernel is the first [sz] bytes of the buffer.  [Some b] is the early
    [return b] of the loop body, [None] is leaving the loop. *)
Fixpoint write_loop (fd : Z) (eventlog : list byte) (sz : Z) (rets : list Z)
  {struct rets} : M (option bool) :=
  if sz >? 0 then
    match rets with
    | [] => blocked
    | r :: rets' =>
        let ret_ := to_int r in
        emit (EvWrite fd (firstn (Z.to_nat sz) eventlog) r) ;;
        if ret_ =? -1 then
          PRINT_ERR "failed to write" ;;
          emit EvUnlock ;;
          ret (Some true)
        else
          write_loop fd eventlog (size_sub sz ret_) rets'
    end
  else ret None.

Definition writer_write (eventlog : list byte) (sz : Z) (rets : list Z)
  : M bool :=
  emit EvLock ;;
  fd <- get client_fd ;;
  if fd <? 0 then
    emit EvUnlock ;;
    ret true
  else
    early <- write_loop fd eventlog sz rets ;;
    match early with
    | Some b => ret b
    | None =>
        emit EvUnlock ;;
        ret true
    end.

Definition writer_flush : M unit := ret tt.

Definition writer_stop : M unit :=
  emit EvLock ;;
  fd <- get client_fd ;;
  (if fd >=? 0 then emit (EvClose fd) else ret tt) ;;
  modify (set_client_fd (-1)) ;;
  emit EvUnlock.

(** The bytes the kernel took from the [write] calls on descriptor [fd], in
    the order of the calls: a call that returned [r > 0] took the first [r]
    bytes it was offered. *)
Fixpoint delivered (fd : Z) (t : list event) : list byte :=
  match t with
  | [] => []
  | EvWrite fd' data r :: t' =>
      (if (fd' =? fd) && (0 <? r) then firstn (Z.to_nat r) data else [])
        ++ delivered fd t'
  | _ :: t' => delivered fd t'
  end.

Definition is_write (e : event) : bool :=
  match e with EvWrite _ _ _ => true | _ => false end.

Definition is_close (e : event) : bool :=
  match e with EvClose _ => true | _ => false end.

(** ** The producer's control hooks

    [startEventLogging], [endEventLogging] and [eventLogStatus] belong to
    the run-time system.  They are modelled by their contract: starting
    installs the given writer (calling its [init]) unless logging is
    unsupported or already running, ending calls the [stop] of the writer
    in use and leaves logging unconfigured.  Records the producer emits are
    separate calls of [writer_write]. *)

Definition startEventLogging : M unit :=
  emit EvStartLogging ;;
  st <- get eventLogStatus ;;
  match st with
  | EVENTLOG_NOT_CONFIGURED =>
      writer_init ;;
      modify (set_status EVENTLOG_RUNNING (Some socket_writer))
  | _ => ret tt
  end.

Definition endEventLogging : M unit :=
  emit EvEndLogging ;;
  st <- get eventLogStatus ;;
  match st with
  | EVENTLOG_RUNNING =>
      w <- get event_log_writer ;;
      match w with
      | Some socket_writer => writer_stop
      | _ => ret tt
      end ;;
      modify (set_status EVENTLOG_NOT_CONFIGURED None)
  | _ => ret tt
  end.

(** ** The listener thread

    [listen_socket] never returns, so it is a step function over the
    program points of its loop body.  A step takes what the system call at
    that point answered ([ret], and [errno] for [poll]); points that make no
    call ignore both. *)

Inductive pc : Type :=
| AtListen                 (* line 95: listen(listen_fd, LISTEN_BACKLOG) *)
| AtAccept                 (* line 102: accept(listen_fd, ...) *)
| AtPublish (fd : Z)       (* lines 103-106: client_fd = fd under the lock *)
| AtStart (fd : Z)         (* line 107: startEventLogging(&socket_writer) *)
| AtBroadcast              (* line 110: pthread_cond_broadcast *)
| AtPollInit               (* lines 113-117: pfd.fd = client_fd *)
| AtPoll (pfd_fd : Z)      (* line 119: poll(&pfd, 1, -1) *)
| AtClear                  (* line 129: client_fd = -1 *)
| AtEnd.                   (* line 130: endEventLogging() *)

Definition listener_step (p : pc) (r errno : Z) : M pc :=
  match p with
  | AtListen =>
      lfd <- get listen_fd ;;
      emit (EvListen lfd LISTEN_BACKLOG r) ;;
      if r =? -1 then
        PRINT_ERR "listen() failed" ;;
        abort
      else ret AtAccept
  | AtAccept =>
      lfd <- get listen_fd ;;
      emit (EvAccept lfd r) ;;
      ret (AtPublish r)
  | AtPublish fd =>
      emit EvLock ;;
      modify (set_client_fd fd) ;;
      emit EvUnlock ;;
      ret (AtStart fd)
  | AtStart _ =>
      startEventLogging ;;
      ret AtBroadcast
  | AtBroadcast =>
      emit EvBroadcast ;;
      ret AtPollInit
  | AtPollInit =>
      fd <- get client_fd ;;
      ret (AtPoll fd)
  | AtPoll pfd_fd =>
      emit (EvPoll pfd_fd r errno) ;;
      if (r =? -1) && negb (errno =? EAGAIN) then
        PRINT_ERR "poll() failed" ;;
        ret AtClear
      else if r >? 0 then ret AtClear
      else ret (AtPoll pfd_fd)
  | AtClear =>
      modify (set_client_fd (-1)) ;;
      ret AtEnd
  | AtEnd =>
      endEventLogging ;;
      ret AtListen
  end.

(** ** The process: the listener interleaved with the producer

    One input is one scheduling decision: the listener takes its next step,
    or a producer thread runs one writer callback.  The callbacks hold the
    mutex from start to end, so each is one step.  The listener's store at
    line 129 is made without the mutex and can fall inside a callback; it
    stores the -1 that [writer_stop] stores too, and [writer_write] works on
    the copy of [client_fd] it took at its start, so the value of
    [client_fd] after the two is the same in either order. *)

Record sys : Type := mkSys {
  mem   : state;
  lpc   : pc;
  alive : bool     (* false once abort() was called *)
}.

Inductive input : Type :=
| Listener (r errno : Z)
| ProducerWrite (eventlog : list byte) (sz : Z) (rets : list Z)
| ProducerStop.

Definition after {A : Type} (y : sys) (r : result A) (next : A -> pc)
  : option (sys * list event) :=
  match out r with
  | Ret a => Some (mkSys (post r) (next a) true, trace r)
  | Aborted => Some (mkSys (post r) (lpc y) false, trace r)
  | Blocked => None
  end.

Definition sys_step (i : input) (y : sys) : option (sys * list event) :=
  if alive y then
    match i with
    | Listener r errno =>
        after y (listener_step (lpc y) r errno (mem y)) (fun p => p)
    | ProducerWrite eventlog sz rets =>
        after y (writer_write eventlog sz rets (mem y)) (fun _ => lpc y)
    | ProducerStop =>
        after y (writer_stop (mem y)) (fun _ => lpc y)
    end
  else None.

Fixpoint run (ins : list input) (y : sys) : option (sys * list event) :=
  match ins with
  | [] => Some (y, [])
  | i :: ins' =>
      match sys_step i y with
      | Some (y', t) =>
          match run ins' y' with
          | Some (y'', t') => Some (y'', t ++ t')
          | None => None
          end
      | None => None
      end
  end.

(** The process at the moment [pthread_create] has started the listener. *)
Definition listener_init (s : state) : sys := mkSys s AtListen true.

(** ** Initialization *)

(** [open_socket].  [local] is not initialised and [sizeof(local.sun_path)]
    is 108: [strncpy] copies at most 107 characters of the path and writes a
    terminating NUL only when the path has fewer than 107.  The [bind] event
    records the characters copied and whether they were terminated; when
    they were not, the name the kernel reads goes on with whatever the stack
    held at [sun_path[107]]. *)
Definition open_socket (sock_path : string)
           (socket_ret bind_ret create_ret : Z) : M unit :=
  emit (EvSocket socket_ret) ;;
  modify (set_listen_fd socket_ret) ;;
  let sun_path := substring 0%nat 107%nat sock_path in
  let terminated := (String.length sock_path <? 107)%nat in
  emit (EvUnlink sock_path) ;;
  lfd <- get listen_fd ;;
  emit (EvBind lfd sun_path terminated bind_ret) ;;
  (if bind_ret =? -1 then
     PRINT_ERR "failed to bind socket" ;;
     abort
   else ret tt) ;;
  emit (EvThreadCreate create_ret) ;;
  if negb (create_ret =? 0) then
    PRINT_ERR "failed to spawn thread"
  else ret tt.

(** [wait_for_connection].  One wakeup is one return of
    [pthread_cond_wait]: its return code, and the value of [client_fd] the
    waiter finds once it holds the mutex again (other threads ran while the
    mutex was released).  With no wakeup left the caller is still waiting.
    A non-zero return code fails the [assert]. *)
Fixpoint wait_loop (wakeups : list (Z * Z)) {struct wakeups} : M unit :=
  fd <- get client_fd ;;
  if fd =? -1 then
    match wakeups with
    | [] => blocked
    | (r, seen) :: wakeups' =>
        emit (EvCondWait r) ;;
        modify (set_client_fd seen) ;;
        if r =? 0 then wait_loop wakeups' else abort
    end
  else ret tt.

Definition wait_for_connection (wakeups : list (Z * Z)) : M unit :=
  emit EvLock ;;
  wait_loop wakeups ;;
  emit EvUnlock.

(** ** Entrypoint *)

Definition with_tracing (v : TraceKind) (f : TRACE_FLAGS) : TRACE_FLAGS :=
  mkTraceFlags v (timestamp f) (scheduler f) (gc f) (nonmoving_gc f)
               (sparks_sampled f) (sparks_full f) (ticky f) (user f).
Definition with_timestamp (v : bool) (f : TRACE_FLAGS) : TRACE_FLAGS :=
  mkTraceFlags (tracing f) v (scheduler f) (gc f) (nonmoving_gc f)
               (sparks_sampled f) (sparks_full f) (ticky f) (user f).
Definition with_scheduler (v : bool) (f : TRACE_FLAGS) : TRACE_FLAGS :=
  mkTraceFlags (tracing f) (timestamp f) v (gc f) (nonmoving_gc f)
               (sparks_sampled f) (sparks_full f) (ticky f) (user f).
Definition with_gc (v : bool) (f : TRACE_FLAGS) : TRACE_FLAGS :=
  mkTraceFlags (tracing f) (timestamp f) (scheduler f) v (nonmoving_gc f)
               (sparks_sampled f) (sparks_full f) (ticky f) (user f).
Definition with_nonmoving_gc (v : bool) (f : TRACE_FLAGS) : TRACE_FLAGS :=
  mkTraceFlags (tracing f) (timestamp f) (scheduler f) (gc f) v
               (sparks_sampled f) (sparks_full f) (ticky f) (user f).
Definition with_sparks_sampled (v : bool) (f : TRACE_FLAGS) : TRACE_FLAGS :=
  mkTraceFlags (tracing f) (timestamp f) (scheduler f) (gc f) (nonmoving_gc f)
               v (sparks_full f) (ticky f) (user f).
Definition with_sparks_full (v : bool) (f : TRACE_FLAGS) : TRACE_FLAGS :=
  mkTraceFlags (tracing f) (timestamp f) (scheduler f) (gc f) (nonmoving_gc f)
               (sparks_sampled f) v (ticky f) (user f).
Definition with_ticky (v : bool) (f : TRACE_FLAGS) : TRACE_FLAGS :=
  mkTraceFlags (tracing f) (timestamp f) (scheduler f) (gc f) (nonmoving_gc f)
               (sparks_sampled f) (sparks_full f) v (user f).
Definition with_user (v : bool) (f : TRACE_FLAGS) : TRACE_FLAGS :=
  mkTraceFlags (tracing f) (timestamp f) (scheduler f) (gc f) (nonmoving_gc f)
               (sparks_sampled f) (sparks_full f) (ticky f) v.

(** An assignment to a field of [RtsFlags.TraceFlags]. *)
Definition assign (upd : TRACE_FLAGS -> TRACE_FLAGS) : M unit :=
  modify (fun s => set_TraceFlags (upd (TraceFlags s)) s).

Definition errorBelch (msg : string) : M unit := emit (EvErrorBelch msg).

(** The [switch] of [read_trace_flags] on one character; the result is the
    value of the local [enabled] after it.  [TICKY_TICKY] is the
    compile-time macro. *)
Definition trace_flag_case (TICKY_TICKY : bool) (c : ascii) (enabled : bool)
  : M bool :=
  if (c =? "-")%char then ret false
  else if (c =? "a")%char then
    assign (with_scheduler enabled) ;;
    assign (with_gc enabled) ;;
    assign (with_sparks_sampled enabled) ;;
    assign (with_sparks_full enabled) ;;
    assign (with_user enabled) ;;
    ret true
  else if (c =? "s")%char then assign (with_scheduler enabled) ;; ret true
  else if (c =? "p")%char then assign (with_sparks_sampled enabled) ;; ret true
  else if (c =? "f")%char then assign (with_sparks_full enabled) ;; ret true
  else if (c =? "t")%char then assign (with_timestamp enabled) ;; ret true
  else if (c =? "g")%char then assign (with_gc enabled) ;; ret true
  else if (c =? "n")%char then assign (with_nonmoving_gc enabled) ;; ret true
  else if (c =? "u")%char then assign (with_user enabled) ;; ret true
  else if (c =? "T")%char then
    if TICKY_TICKY then assign (with_ticky enabled) ;; ret true
    else
      errorBelch "Program not compiled with ticky-ticky support" ;;
      ret enabled
  else
    errorBelch ("unknown trace option: " ++ String c "")%string ;;
    ret enabled.

(** The [for] loop of [read_trace_flags]; it stops at the first NUL. *)
Fixpoint trace_flags_loop (TICKY_TICKY : bool) (c : string) (enabled : bool)
  {struct c} : M unit :=
  match c with
  | EmptyString => ret tt
  | String ch rest =>
      if (ch =? "000")%char then ret tt
      else
        enabled' <- trace_flag_case TICKY_TICKY ch enabled ;;
        trace_flags_loop TICKY_TICKY rest enabled'
  end.

Definition read_trace_flags (TICKY_TICKY : bool) (arg : string) : M unit :=
  assign (with_scheduler true) ;;
  assign (with_gc true) ;;
  assign (with_sparks_sampled true) ;;
  assign (with_user true) ;;
  trace_flags_loop TICKY_TICKY arg true.

(** What the environment answers during [eventlog_socket_start]. *)
Record start_env : Type := mkEnv {
  getenv_GHC_EVENTLOG_SOCKET : option string;  (* None: getenv gave NULL *)
  socket_ret         : Z;
  bind_ret           : Z;
  pthread_create_ret : Z;
  cond_wakeups       : list (Z * Z)
}.

(** [eventlog_socket_start]; a [sock_path] of [None] is the NULL pointer. *)
Definition eventlog_socket_start (TICKY_TICKY : bool)
           (sock_path : option string) (wait : bool) (env : start_env)
  : M unit :=
  ini <- get initialized ;;
  (if negb ini then
     emit EvMutexInit ;;
     emit EvCondInit ;;
     modify (set_initialized true)
   else ret tt) ;;
  sock_path <- match sock_path with
               | None =>
                   emit (EvGetenv "GHC_EVENTLOG_SOCKET") ;;
                   ret (getenv_GHC_EVENTLOG_SOCKET env)
               | Some p => ret (Some p)
               end ;;
  match sock_path with
  | None => ret tt
  | Some path =>
      st <- get eventLogStatus ;;
      match st with
      | EVENTLOG_NOT_SUPPORTED => PRINT_ERR "eventlog is not supported."
      | _ =>
          st' <- get eventLogStatus ;;
          match st' with
          | EVENTLOG_RUNNING => endEventLogging
          | _ => ret tt
          end ;;
          assign (with_tracing TRACE_EVENTLOG) ;;
          read_trace_flags TICKY_TICKY "" ;;
          open_socket path (socket_ret env) (bind_ret env)
                      (pthread_create_ret env) ;;
          if wait then
            emit (EvPrintf "ghc-eventlog-socket: Waiting for connection") ;;
            wait_for_connection (cond_wakeups env)
          else ret tt
      end
  end.

(** Events that touch a socket or start the listener. *)
Definition is_socket_op (e : event) : bool :=
  match e with
  | EvSocket _ | EvUnlink _ | EvBind _ _ _ _ | EvListen _ _ _ | EvAccept _ _
  | EvPoll _ _ _ | EvThreadCreate _ | EvWrite _ _ _ | EvClose _ => true
  | _ => false
  end.

Definition is_hook (e : event) : bool :=
  match e with
  | EvStartLogging | EvEndLogging => true
  | _ => false
  end.

Definition is_abort (e : event) : bool :=
  match e with EvAbort => true | _ => false end.

(** * Vocabulary of the properties and example inputs *)

(** A [write] call of the trace returned -1 (as an [int]). *)
Definition write_failed (t : list event) : bool :=
  existsb (fun e => match e with
                    | EvWrite _ _ r => to_int r =? -1
                    | _ => false
                    end) t.

(** The events the writer callbacks can produce. *)
Definition is_writer_event (e : event) : bool :=
  match e with
  | EvLock | EvUnlock | EvWrite _ _ _ | EvPrintErr _ | EvClose _ => true
  | _ => false
  end.

(** Example states. *)
Definition no_flags : TRACE_FLAGS :=
  mkTraceFlags TRACE_NONE false false false false false false false false.

(** The listener has published descriptor [fd] and logging runs. *)
Definition connected (fd : Z) : state :=
  mkState true 3 fd EVENTLOG_RUNNING (Some socket_writer) no_flags.

(** No client: the state [eventlog_socket_start] leaves behind before the
    first connection. *)
Definition disconnected : state :=
  mkState true 3 (-1) EVENTLOG_NOT_CONFIGURED None no_flags.

(** Teardown on write failure, as the specification words it: after a
    failed write the active client is gone. *)
Definition write_failure_clears_client : Prop :=
  forall (eventlog : list byte) (sz : Z) (rets : list Z) (s : state),
    write_failed (trace (writer_write eventlog sz rets s)) = true ->
    ActiveClient (post (writer_write eventlog sz rets s)) = None.

(** A wakeup with nothing to report: [pthread_cond_wait] returned 0 and
    [client_fd] is still -1. *)
Definition spurious (w : Z * Z) : Prop := w = (0, -1).

(** Split on the innermost test of the goal until none is left. *)
Ltac split_tests :=
  repeat match goal with
         | |- context [match ?x with _ => _ end] =>
             lazymatch x with
             | context [match _ with _ => _ end] => fail
             | _ => destruct x eqn:?; simpl
             end
         end.

(** The slot is empty at the program points from the end of a teardown to
    the publication of the next descriptor. *)
Definition slot_empty_between_clients (y : sys) : Prop :=
  match lpc y with
  | AtListen | AtAccept | AtPublish _ | AtEnd => client_fd (mem y) = -1
  | _ => True
  end.

(** A run through one whole session and into the next iteration: listen,
    accept descriptor 7, publish, start, a record written, broadcast, poll
    (one return without hangup, then hangup), a write that fails, teardown,
    listen again. *)
Definition one_session : list input :=
  [ Listener 0 0; Listener 7 0; Listener 0 0; Listener 0 0;
    ProducerWrite [x61; x62; x63] 3 [3];
    Listener 0 0; Listener 0 0; Listener 0 0; Listener 1 0;
    ProducerWrite [x78; x79; x7a] 3 [-1];
    Listener 0 0; Listener 0 0; Listener 0 0 ].

Definition one_session_end : sys :=
  Eval vm_compute in
    match run one_session (listener_init disconnected) with
    | Some (y, _) => y
    | None => listener_init disconnected
    end.

Definition one_session_trace : list event :=
  Eval vm_compute in
    match run one_session (listener_init disconnected) with
    | Some (_, t) => t
    | None => []
    end.

Definition is_producer (i : input) : bool :=
  match i with Listener _ _ => false | _ => true end.

Definition is_stop (i : input) : bool :=
  match i with ProducerStop => true | _ => false end.

(** The descriptor returned by the most recent [accept] of a trace. *)
Fixpoint last_accept (t : list event) : option Z :=
  match t with
  | [] => None
  | EvAccept _ r :: t' =>
      match last_accept t' with
      | Some r' => Some r'
      | None => Some r
      end
  | _ :: t' => last_accept t'
  end.

(** In the run [ins] that ends in [y], the listener's latest step was the
    publication of [fd]: the run splits into a prefix that ends with the
    listener at [AtPublish fd], the listener's step from there, and steps of
    producer threads only.  Unless one of those was a [stop], [client_fd]
    still holds [fd]. *)
Definition published (s0 : state) (ins : list input) (fd : Z) (y : sys)
  : Prop :=
  exists (ins1 ins2 : list input) (r errno : Z) (y1 : sys) (t1 : list event),
    ins = ins1 ++ Listener r errno :: ins2 /\
    run ins1 (listener_init s0) = Some (y1, t1) /\
    lpc y1 = AtPublish fd /\
    forallb is_producer ins2 = true /\
    (existsb is_stop ins2 = false -> client_fd (mem y) = fd).

(** What every run guarantees when the listener stands at [AtPublish] or at
    [AtStart]. *)
Definition publish_invariant (s0 : state) (ins : list input) (y : sys)
           (t : list event) : Prop :=
  (forall fd, lpc y = AtPublish fd -> last_accept t = Some fd) /\
  (forall fd, lpc y = AtStart fd ->
              last_accept t = Some fd /\ published s0 ins fd y).

(** A run up to the start hook, with a [write] of another thread squeezed
    in between the publication and the hook. *)
Definition until_start : list input :=
  [ Listener 0 0; Listener 7 0; Listener 0 0;
    ProducerWrite [x61] 1 [1] ].

Definition before_start : sys :=
  Eval vm_compute in
    match run until_start (listener_init disconnected) with
    | Some (y, _) => y
    | None => listener_init disconnected
    end.

Definition before_start_trace : list event :=
  Eval vm_compute in
    match run until_start (listener_init disconnected) with
    | Some (_, t) => t
    | None => []
    end.

Definition after_start : sys :=
  Eval vm_compute in
    match sys_step (Listener 0 0) before_start with
    | Some (y, _) => y
    | None => before_start
    end.

(** ** Counting events *)

Definition is_lock (e : event) : bool :=
  match e with EvLock => true | _ => false end.

Definition is_unlock (e : event) : bool :=
  match e with EvUnlock => true | _ => false end.

(** How many events of a trace satisfy [p]. *)
Definition count_ev (p : event -> bool) (t : list event) : nat :=
  List.length (filter p t).

(** The sum of what a sequence of [write] calls returned. *)
Definition sum_Z (l : list Z) : Z := fold_right Z.add 0 l.

(** ** Sessions of the listener *)

Definition is_start (e : event) : bool :=
  match e with EvStartLogging => true | _ => false end.

Definition is_end (e : event) : bool :=
  match e with EvEndLogging => true | _ => false end.

(** 1 at the program points between the start hook and the end hook of an
    iteration, 0 elsewhere. *)
Definition in_session (p : pc) : nat :=
  match p with
  | AtBroadcast | AtPollInit | AtPoll _ | AtClear | AtEnd => 1%nat
  | _ => 0%nat
  end.

(** The listener's steps up to the armed [poll], when [listen] succeeds and
    [accept] returns [fd]. *)
Definition connect_inputs (fd : Z) : list input :=
  [Listener 0 0; Listener fd 0; Listener 0 0; Listener 0 0; Listener 0 0;
   Listener 0 0].

(** One whole iteration of the listener alone: connect, [retries] returns of
    [poll] with -1 and [EAGAIN], a return of 1 (hangup), teardown. *)
Definition session_inputs (fd : Z) (retries : nat) : list input :=
  connect_inputs fd
    ++ repeat (Listener (-1) EAGAIN) retries
    ++ [Listener 1 0; Listener 0 0; Listener 0 0].

Definition session_trace (lfd fd : Z) (retries : nat) : list event :=
  [EvListen lfd LISTEN_BACKLOG 0; EvAccept lfd fd; EvLock; EvUnlock;
   EvStartLogging; EvBroadcast]
    ++ repeat (EvPoll fd (-1) EAGAIN) retries
    ++ [EvPoll fd 1 0; EvEndLogging; EvLock; EvUnlock].

(** ** Trace flags *)

Definition is_belch (e : event) : bool :=
  match e with EvErrorBelch _ => true | _ => false end.

(** The state [s'] differs from [s] at most in the trace classes: the
    globals, the logging status and the [tracing] field are the same. *)
Definition same_but_classes (s s' : state) : Prop :=
  initialized s' = initialized s /\
  listen_fd s' = listen_fd s /\
  client_fd s' = client_fd s /\
  eventLogStatus s' = eventLogStatus s /\
  event_log_writer s' = event_log_writer s /\
  tracing (TraceFlags s') = tracing (TraceFlags s).

(** The character [x] occurs in [arg]. *)
Fixpoint mentions (x : ascii) (arg : string) : bool :=
  match arg with
  | EmptyString => false
  | String c rest => (c =? x)%char || mentions x rest
  end.

(** No minus sign and no NUL in [arg]. *)
Fixpoint no_minus (arg : string) : bool :=
  match arg with
  | EmptyString => true
  | String c rest =>
      negb (c =? "-")%char && negb (c =? "000")%char && no_minus rest
  end.

(** The classes after a flag string without minus signs has been read on
    top of the flags [f]: a class is on when one of its letters occurs, and
    as in [f] otherwise. *)
Definition classes_on (TICKY_TICKY : bool) (arg : string) (f : TRACE_FLAGS)
  : TRACE_FLAGS :=
  mkTraceFlags
    (tracing f)
    (mentions "t" arg || timestamp f)
    (mentions "a" arg || mentions "s" arg || scheduler f)
    (mentions "a" arg || mentions "g" arg || gc f)
    (mentions "n" arg || nonmoving_gc f)
    (mentions "a" arg || mentions "p" arg || sparks_sampled f)
    (mentions "a" arg || mentions "f" arg || sparks_full f)
    (TICKY_TICKY && mentions "T" arg || ticky f)
    (mentions "a" arg || mentions "u" arg || user f).

(** The four classes [read_trace_flags] turns on before it reads [arg]. *)
Definition default_classes (f : TRACE_FLAGS) : TRACE_FLAGS :=
  with_user true (with_sparks_sampled true (with_gc true
    (with_scheduler true f))).

(** ** Start-up paths *)

(** The socket path [eventlog_socket_start] ends up with: the argument, or
    the environment variable when the argument is NULL. *)
Definition resolve_path (sock_path : option string) (env : start_env)
  : option string :=
  match sock_path with
  | None => getenv_GHC_EVENTLOG_SOCKET env
  | Some p => Some p
  end.

(** The flags [eventlog_socket_start] sets before it opens the socket. *)
Definition start_classes (f : TRACE_FLAGS) : TRACE_FLAGS :=
  default_classes (with_tracing TRACE_EVENTLOG f).

Definition is_init (e : event) : bool :=
  match e with EvMutexInit | EvCondInit => true | _ => false end.

Definition is_cond_wait (e : event) : bool :=
  match e with EvCondWait _ => true | _ => false end.

Definition is_spawn (e : event) : bool :=
  match e with EvThreadCreate _ => true | _ => false end.

(** ** A client that reconnects *)



(** ** Targets after the start hook *)

(** The program points from the call of the start hook up to the store that
    clears [client_fd] (lines 107 to 129). *)
Definition streaming (p : pc) : bool :=
  match p with
  | AtStart _ | AtBroadcast | AtPollInit | AtPoll _ | AtClear => true
  | _ => false
  end.

(** The consequence drawn from the ordering, as the specification words it:
    whenever the start hook has been called and the end hook has not yet,
    the write path finds a descriptor. *)
Definition events_after_start_have_target : Prop :=
  forall (s0 : state) (ins : list input) (y : sys) (t : list event),
    client_fd s0 = -1 ->
    run ins (listener_init s0) = Some (y, t) ->
    in_session (lpc y) = 1%nat ->
    ActiveClient (mem y) <> None.

(** * Properties *)

(** ** Small facts about the state and the monad *)

Lemma set_client_fd_same (s : state) :
  set_client_fd (client_fd s) s = s.
Proof. destruct s; reflexivity. Qed.

Lemma ActiveClient_none (s : state) :
  ActiveClient s = None <-> client_fd s < 0.
Proof.
  unfold ActiveClient. destruct (Z.ltb_spec (client_fd s) 0); split; intro H0;
    try reflexivity; try assumption; try discriminate; lia.
Qed.

Lemma ActiveClient_some (s : state) (fd : Z) :
  0 <= fd -> client_fd s = fd -> ActiveClient s = Some fd.
Proof.
  intros Hfd Heq. unfold ActiveClient. rewrite Heq.
  destruct (Z.ltb_spec fd 0); [lia | reflexivity].
Qed.

(** Running [m] then [f], when the result of [m] is known. *)
Lemma bind_Ret {A B : Type} (m : M A) (f : A -> M B) (s s1 : state)
      (a : A) (t1 : list event) :
  m s = mkRes (Ret a) s1 t1 ->
  bind m f s = mkRes (out (f a s1)) (post (f a s1)) (t1 ++ trace (f a s1)).
Proof.
  intros H. unfold bind. rewrite H. destruct (f a s1); reflexivity.
Qed.

Lemma bind_Aborted {A B : Type} (m : M A) (f : A -> M B) (s s1 : state)
      (t1 : list event) :
  m s = mkRes Aborted s1 t1 -> bind m f s = mkRes Aborted s1 t1.
Proof. intros H. unfold bind. rewrite H. reflexivity. Qed.

Lemma bind_Blocked {A B : Type} (m : M A) (f : A -> M B) (s s1 : state)
      (t1 : list event) :
  m s = mkRes Blocked s1 t1 -> bind m f s = mkRes Blocked s1 t1.
Proof. intros H. unfold bind. rewrite H. reflexivity. Qed.

Lemma write_failed_app (t u : list event) :
  write_failed (t ++ u) = write_failed t || write_failed u.
Proof. unfold write_failed. apply existsb_app. Qed.

Lemma to_int_small (r : Z) : - 2 ^ 31 <= r < 2 ^ 31 -> to_int r = r.
Proof.
  intros H. unfold to_int.
  rewrite Z.mod_small by lia. lia.
Qed.

(** ** The write loop *)

Lemma write_loop_unfold (fd : Z) (eventlog : list byte) (sz r : Z)
      (rets : list Z) (s : state) :
  (sz >? 0) = true ->
  write_loop fd eventlog sz (r :: rets) s =
  if to_int r =? -1 then
    mkRes (Ret (Some true)) s
          [EvWrite fd (firstn (Z.to_nat sz) eventlog) r;
           EvPrintErr "failed to write"; EvUnlock]
  else
    let l := write_loop fd eventlog (size_sub sz (to_int r)) rets s in
    mkRes (out l) (post l)
          (EvWrite fd (firstn (Z.to_nat sz) eventlog) r :: trace l).
Proof.
  intros Hsz. simpl. rewrite Hsz. unfold bind at 1. simpl.
  destruct (to_int r =? -1).
  - reflexivity.
  - destruct (write_loop fd eventlog (size_sub sz (to_int r)) rets s);
      reflexivity.
Qed.

Lemma write_loop_done (fd : Z) (eventlog : list byte) (sz : Z)
      (rets : list Z) (s : state) :
  (sz >? 0) = false ->
  write_loop fd eventlog sz rets s = mkRes (Ret None) s [].
Proof. intros Hsz. destruct rets; simpl; rewrite Hsz; reflexivity. Qed.

(** The loop leaves the globals alone, closes nothing, can only leave early
    with [true], and a failed [write] ends it at once: error line, unlock,
    early return. *)
Lemma write_loop_spec (fd : Z) (eventlog : list byte) (rets : list Z) :
  forall (sz : Z) (s : state),
    let l := write_loop fd eventlog sz rets s in
    post l = s /\
    (out l = Ret None \/ out l = Ret (Some true) \/ out l = Blocked) /\
    forallb is_writer_event (trace l) = true /\
    forallb (fun e => negb (is_close e)) (trace l) = true /\
    (out l = Ret None \/ out l = Blocked -> write_failed (trace l) = false) /\
    (out l = Ret (Some true) ->
     write_failed (trace l) = true /\
     last (trace l) EvLock = EvUnlock /\
     In (EvPrintErr "failed to write") (trace l)).
Proof.
  induction rets as [| r rets IH]; intros sz s l; subst l.
  - simpl. destruct (sz >? 0); simpl;
      (split; [reflexivity |]); (split; [auto |]);
      (split; [reflexivity |]); (split; [reflexivity |]);
      (split; [reflexivity |]); discriminate.
  - destruct (sz >? 0) eqn:Hsz.
    + rewrite write_loop_unfold by exact Hsz.
      destruct (to_int r =? -1) eqn:E.
      * simpl. rewrite E. simpl.
        split; [reflexivity |]. split; [auto |].
        split; [reflexivity |]. split; [reflexivity |].
        split; [intros [H | H]; discriminate H |].
        intros _. split; [reflexivity |]. split; [reflexivity |].
        right; left; reflexivity.
      * specialize (IH (size_sub sz (to_int r)) s).
        destruct IH as [Hp [Ho [Hw [Hc [Hn Hf]]]]].
        cbv zeta. simpl. rewrite E. simpl.
        split; [exact Hp |]. split; [exact Ho |].
        split; [exact Hw |]. split; [exact Hc |].
        split; [exact Hn |].
        intros H. destruct (Hf H) as [H1 [H2 H3]].
        split; [exact H1 |]. split; [| right; exact H3].
        destruct (trace (write_loop fd eventlog (size_sub sz (to_int r))
                                    rets s)); [destruct H3 | exact H2].
    + rewrite write_loop_done by exact Hsz. simpl.
      split; [reflexivity |]. split; [auto |].
      split; [reflexivity |]. split; [reflexivity |].
      split; [reflexivity |]. discriminate.
Qed.

(** When the loop leaves early, its trace is: writes that did not fail, the
    write that failed, the error line, the unlock; nothing else. *)
Lemma write_loop_failure_tail (fd : Z) (eventlog : list byte)
      (rets : list Z) :
  forall (sz : Z) (s : state),
    out (write_loop fd eventlog sz rets s) = Ret (Some true) ->
    exists (before : list event) (data : list byte) (r0 : Z),
      trace (write_loop fd eventlog sz rets s)
      = before ++ [EvWrite fd data r0; EvPrintErr "failed to write";
                   EvUnlock] /\
      to_int r0 = -1 /\
      write_failed before = false /\
      forallb is_write before = true.
Proof.
  induction rets as [| r rets IH]; intros sz s.
  - simpl. destruct (sz >? 0); discriminate.
  - destruct (sz >? 0) eqn:Hsz.
    + rewrite write_loop_unfold by exact Hsz.
      destruct (Z.eqb_spec (to_int r) (-1)) as [E | E].
      * intros _. exists [], (firstn (Z.to_nat sz) eventlog), r.
        repeat split. exact E.
      * cbv zeta. cbn [out trace]. intros Ho.
        destruct (IH (size_sub sz (to_int r)) s Ho)
          as (before & data & r0 & Ht & Hr & Hb & Hw).
        exists (EvWrite fd (firstn (Z.to_nat sz) eventlog) r :: before),
          data, r0.
        split; [rewrite Ht; reflexivity |]. split; [exact Hr |].
        split; [| simpl; exact Hw].
        simpl. apply Z.eqb_neq in E. rewrite E. exact Hb.
    + rewrite write_loop_done by exact Hsz. discriminate.
Qed.

(** [writer_write] with a client connected, in terms of its loop. *)
Lemma writer_write_connected (eventlog : list byte) (sz : Z) (rets : list Z)
      (s : state) :
  0 <= client_fd s ->
  let l := write_loop (client_fd s) eventlog sz rets s in
  writer_write eventlog sz rets s =
  match out l with
  | Ret (Some b) => mkRes (Ret b) (post l) (EvLock :: trace l ++ [])
  | Ret None => mkRes (Ret true) (post l) (EvLock :: trace l ++ [EvUnlock])
  | Aborted => mkRes Aborted (post l) (EvLock :: trace l)
  | Blocked => mkRes Blocked (post l) (EvLock :: trace l)
  end.
Proof.
  intros Hfd l. subst l. unfold writer_write, bind; simpl.
  destruct (Z.ltb_spec (client_fd s) 0); [lia |].
  destruct (write_loop (client_fd s) eventlog sz rets s)
    as [[[b |] | |] s1 t1]; reflexivity.
Qed.

Lemma writer_write_disconnected (eventlog : list byte) (sz : Z)
      (rets : list Z) (s : state) :
  client_fd s < 0 ->
  writer_write eventlog sz rets s = mkRes (Ret true) s [EvLock; EvUnlock].
Proof.
  intros H. unfold writer_write, bind; simpl.
  destruct (Z.ltb_spec (client_fd s) 0); [reflexivity | lia].
Qed.

(** Whatever happens, the producer is never told of a failure, the globals
    are as before, and only writer events occur. *)
Lemma writer_write_spec (eventlog : list byte) (sz : Z) (rets : list Z)
      (s : state) :
  let r := writer_write eventlog sz rets s in
  post r = s /\
  (out r = Ret true \/ out r = Blocked) /\
  forallb is_writer_event (trace r) = true /\
  forallb (fun e => negb (is_close e)) (trace r) = true.
Proof.
  intros r. subst r.
  destruct (Z.ltb_spec (client_fd s) 0) as [Hneg | Hpos].
  - rewrite writer_write_disconnected by exact Hneg. simpl. auto.
  - rewrite writer_write_connected by exact Hpos.
    destruct (write_loop_spec (client_fd s) eventlog rets sz s)
      as [Hp [Ho [Hw [Hc _]]]].
    destruct Ho as [Ho | [Ho | Ho]]; rewrite Ho; simpl;
      rewrite ?forallb_app, ?Hw, ?Hc; simpl; auto.
Qed.

Lemma writer_write_reports_success (eventlog : list byte) (sz : Z)
      (rets : list Z) (s : state) (b : bool) :
  out (writer_write eventlog sz rets s) = Ret b -> b = true.
Proof.
  destruct (writer_write_spec eventlog sz rets s) as [_ [[Ho | Ho] _]];
    rewrite Ho; intros H; inversion H; reflexivity.
Qed.

(** The bytes a client receives from one call of [writer_write], when the
    kernel takes the whole buffer in one [write]: exactly the buffer. *)
Lemma writer_write_whole (eventlog : list byte) (sz : Z) (rets : list Z)
      (s : state) :
  0 <= client_fd s ->
  0 < sz < 2 ^ 31 ->
  Z.of_nat (List.length eventlog) = sz ->
  let r := writer_write eventlog sz (sz :: rets) s in
  out r = Ret true /\ delivered (client_fd s) (trace r) = eventlog.
Proof.
  intros Hfd Hsz Hlen r. subst r.
  rewrite writer_write_connected by assumption.
  assert (Hgt : (sz >? 0) = true) by (apply Z.gtb_lt; lia).
  rewrite write_loop_unfold by exact Hgt.
  rewrite to_int_small by lia.
  destruct (Z.eqb_spec sz (-1)); [lia |].
  assert (Hz : size_sub sz sz = 0)
    by (unfold size_sub; rewrite Z.sub_diag; reflexivity).
  rewrite Hz, write_loop_done by reflexivity.
  simpl. split; [reflexivity |].
  rewrite Z.eqb_refl. destruct (Z.ltb_spec 0 sz); [| lia]. simpl.
  rewrite app_nil_r.
  assert (Hn : Z.to_nat sz = List.length eventlog) by lia.
  rewrite Hn, firstn_all. apply firstn_all.
Qed.

(** After a partial write of [k] bytes the loop asks for the [sz - k] bytes
    still missing, but from the start of the buffer again. *)
Lemma writer_write_after_partial (eventlog : list byte) (sz k : Z)
      (s : state) :
  0 <= client_fd s ->
  0 < k < sz ->
  sz < 2 ^ 31 ->
  let r := writer_write eventlog sz [k; sz - k] s in
  out r = Ret true /\
  delivered (client_fd s) (trace r)
  = firstn (Z.to_nat k) eventlog ++ firstn (Z.to_nat (sz - k)) eventlog.
Proof.
  intros Hfd Hk Hsz r. subst r.
  rewrite writer_write_connected by assumption.
  rewrite write_loop_unfold by (apply Z.gtb_lt; lia).
  rewrite to_int_small by lia.
  destruct (Z.eqb_spec k (-1)); [lia |].
  assert (H1 : size_sub sz k = sz - k)
    by (unfold size_sub; apply Z.mod_small; lia).
  cbv zeta. rewrite H1.
  rewrite write_loop_unfold by (apply Z.gtb_lt; lia).
  rewrite to_int_small by lia.
  destruct (Z.eqb_spec (sz - k) (-1)); [lia |].
  assert (H2 : size_sub (sz - k) (sz - k) = 0)
    by (unfold size_sub; rewrite Z.sub_diag; reflexivity).
  cbv zeta. rewrite H2, write_loop_done by reflexivity.
  simpl. split; [reflexivity |].
  rewrite Z.eqb_refl.
  destruct (Z.ltb_spec 0 k); [| lia].
  destruct (Z.ltb_spec 0 (sz - k)); [| lia]. simpl.
  rewrite app_nil_r, !firstn_firstn.
  rewrite Nat.min_l by lia. rewrite Nat.min_id. reflexivity.
Qed.

(** ** Claims about the writer *)

(** C1 (the code departs from it).  The claim: a write issued while a client
    is connected delivers all [length] bytes of the buffer, in order.  The
    loop counts the bytes still to send but passes the unchanged pointer
    [eventlog] to every [write]: after a partial write it sends the start of
    the buffer again.  With the two-byte buffer [ab] and a kernel that takes
    one byte per call the client receives [aa], no call fails, and the
    producer is told the write succeeded. *)
Theorem writer_write_partial_write_resends_prefix :
  let r := writer_write [x61; x62] 2 [1; 1] (connected 5) in
  out r = Ret true /\
  trace r = [EvLock; EvWrite 5 [x61; x62] 1; EvWrite 5 [x61] 1; EvUnlock] /\
  write_failed (trace r) = false /\
  delivered 5 (trace r) = [x61; x61] /\
  delivered 5 (trace r) <> [x61; x62].
Proof.
  vm_compute. repeat split; try reflexivity. discriminate.
Qed.

(** C3.  A write issued while no client is connected returns success at
    once: the only events are taking and releasing the mutex, no [write] is
    issued, the globals are unchanged, and the result does not depend on any
    answer of the operating system (the call is never blocked). *)
Theorem writer_write_no_client (eventlog : list byte) (sz : Z)
        (rets : list Z) (s : state) :
  ActiveClient s = None ->
  writer_write eventlog sz rets s = mkRes (Ret true) s [EvLock; EvUnlock].
Proof.
  intros H. apply ActiveClient_none in H.
  apply writer_write_disconnected. exact H.
Qed.

Lemma writer_write_no_client_witness :
  ActiveClient disconnected = None /\
  writer_write [x61; x62] 2 [] disconnected
  = mkRes (Ret true) disconnected [EvLock; EvUnlock].
Proof.
  split; [reflexivity |].
  apply (writer_write_no_client [x61; x62] 2 [] disconnected). reflexivity.
Defined.

(** C4, counterexample.  Client 5 is connected, the producer writes one
    byte and [write] answers -1: the descriptor is still recorded. *)
Lemma write_failure_clears_client_fails :
  write_failed (trace (writer_write [x61] 1 [-1] (connected 5))) = true /\
  ActiveClient (post (writer_write [x61] 1 [-1] (connected 5))) = Some 5 /\
  ~ write_failure_clears_client.
Proof.
  split; [reflexivity |]. split; [reflexivity |].
  intros H. specialize (H [x61] 1 [-1] (connected 5) eq_refl).
  discriminate H.
Qed.

(** C4, amended.  When a write to the active client fails, [writer_write]
    logs the failure, makes no further [write] call, releases the mutex,
    reports success to the producer and leaves the connection state as it
    was: the descriptor is still the active client and has not been closed.
    Its whole trace is the lock, the writes that did not fail, the write
    that failed, the error line and the unlock. *)
Theorem writer_write_failure_keeps_client (eventlog : list byte) (sz : Z)
        (rets : list Z) (s : state) :
  let r := writer_write eventlog sz rets s in
  write_failed (trace r) = true ->
  out r = Ret true /\
  post r = s /\
  ActiveClient (post r) = Some (client_fd s) /\
  forallb (fun e => negb (is_close e)) (trace r) = true /\
  last (trace r) EvLock = EvUnlock /\
  In (EvPrintErr "failed to write") (trace r) /\
  exists (before : list event) (data : list byte) (r0 : Z),
    trace r = EvLock :: before
                ++ [EvWrite (client_fd s) data r0;
                    EvPrintErr "failed to write"; EvUnlock] /\
    to_int r0 = -1 /\
    write_failed before = false /\
    forallb is_write before = true.
Proof.
  intros r. subst r.
  destruct (Z.ltb_spec (client_fd s) 0) as [Hneg | Hpos].
  - rewrite writer_write_disconnected by exact Hneg. simpl. discriminate.
  - rewrite writer_write_connected by exact Hpos.
    destruct (write_loop_spec (client_fd s) eventlog rets sz s)
      as [Hp [Ho [_ [Hc [Hn Hf]]]]].
    pose proof (write_loop_failure_tail (client_fd s) eventlog rets sz s)
      as Htail.
    destruct Ho as [Ho | [Ho | Ho]]; rewrite Ho; simpl.
    + rewrite write_failed_app, Hn by (left; exact Ho). discriminate.
    + destruct (Hf Ho) as [_ [Hl Hi]]. rewrite app_nil_r. intros _.
      split; [reflexivity |]. split; [exact Hp |].
      split; [rewrite Hp; apply ActiveClient_some; [exact Hpos | reflexivity] |].
      split; [exact Hc |].
      split; [| split; [right; exact Hi |]].
      * destruct (trace (write_loop (client_fd s) eventlog sz rets s));
          [destruct Hi | exact Hl].
      * destruct (Htail Ho) as (before & data & r0 & Ht & Hr & Hb & Hw).
        exists before, data, r0. rewrite Ht. repeat split; assumption.
    + rewrite Hn by (right; exact Ho). discriminate.
Qed.

Lemma writer_write_failure_keeps_client_witness :
  let r := writer_write [x61] 1 [-1] (connected 5) in
  write_failed (trace r) = true /\
  out r = Ret true /\
  post r = connected 5 /\
  ActiveClient (post r) = Some 5.
Proof.
  pose proof (writer_write_failure_keeps_client [x61] 1 [-1] (connected 5)
                                                 eq_refl) as H.
  split; [reflexivity |].
  destruct H as [H1 [H2 [H3 _]]].
  split; [exact H1 |]. split; [exact H2 | exact H3].
Defined.

(** After the first failed answer the later answers are not looked at: one
    [write] call, however many answers were to follow. *)
Example writer_write_stops_at_failure :
  trace (writer_write [x61; x62] 2 [-1; 2] (connected 5))
  = [EvLock; EvWrite 5 [x61; x62] (-1); EvPrintErr "failed to write";
     EvUnlock].
Proof. reflexivity. Qed.

(** C10.  A write of length zero returns success without entering the loop
    body: no [write] call is made, whether or not a client is connected,
    and no answer of the operating system is awaited. *)
Theorem writer_write_zero_length (eventlog : list byte) (rets : list Z)
        (s : state) :
  writer_write eventlog 0 rets s = mkRes (Ret true) s [EvLock; EvUnlock] /\
  existsb is_write (trace (writer_write eventlog 0 rets s)) = false.
Proof.
  assert (H : writer_write eventlog 0 rets s
              = mkRes (Ret true) s [EvLock; EvUnlock]).
  { destruct (Z.ltb_spec (client_fd s) 0) as [Hneg | Hpos].
    - apply writer_write_disconnected. exact Hneg.
    - rewrite writer_write_connected by exact Hpos.
      rewrite write_loop_done by reflexivity. reflexivity. }
  rewrite H. split; reflexivity.
Qed.

(** What [writer_stop] does, in one equation. *)
Lemma writer_stop_eq (s : state) :
  writer_stop s =
  mkRes (Ret tt) (set_client_fd (-1) s)
        (if client_fd s >=? 0
         then [EvLock; EvClose (client_fd s); EvUnlock]
         else [EvLock; EvUnlock]).
Proof.
  unfold writer_stop, bind; simpl.
  destruct (client_fd s >=? 0); reflexivity.
Qed.

(** C7.  [writer_stop] always returns and leaves no active client.  With no
    client active it closes nothing and the active client stays empty; when
    [client_fd] holds -1, the value that marks the empty slot, the state is
    exactly as before.  Hence a second [stop] right after a first one
    changes nothing. *)
Theorem writer_stop_idempotent (s : state) :
  out (writer_stop s) = Ret tt /\
  ActiveClient (post (writer_stop s)) = None /\
  client_fd (post (writer_stop s)) = -1 /\
  (ActiveClient s = None ->
   trace (writer_stop s) = [EvLock; EvUnlock] /\
   ActiveClient (post (writer_stop s)) = ActiveClient s) /\
  (client_fd s = -1 ->
   writer_stop s = mkRes (Ret tt) s [EvLock; EvUnlock]) /\
  writer_stop (post (writer_stop s))
  = mkRes (Ret tt) (post (writer_stop s)) [EvLock; EvUnlock].
Proof.
  rewrite !writer_stop_eq. simpl.
  split; [reflexivity |]. split; [reflexivity |]. split; [reflexivity |].
  split; [| split].
  - intros Hn. rewrite Hn. apply ActiveClient_none in Hn.
    destruct (Z.geb_spec (client_fd s) 0); [lia |]. split; reflexivity.
  - intros Heq. rewrite Heq. simpl.
    rewrite <- Heq at 1. rewrite set_client_fd_same. reflexivity.
  - destruct s; reflexivity.
Qed.

Lemma writer_stop_idempotent_witness :
  ActiveClient disconnected = None /\
  client_fd disconnected = -1 /\
  writer_stop disconnected = mkRes (Ret tt) disconnected [EvLock; EvUnlock] /\
  trace (writer_stop disconnected) = [EvLock; EvUnlock].
Proof.
  pose proof (writer_stop_idempotent disconnected) as H.
  destruct H as [_ [_ [_ [H4 [H5 _]]]]].
  split; [reflexivity |]. split; [reflexivity |].
  split; [apply H5; reflexivity |].
  destruct (H4 eq_refl) as [Ht _]. exact Ht.
Defined.

(** With a client connected, [stop] closes its descriptor once. *)
Lemma writer_stop_closes (s : state) :
  0 <= client_fd s ->
  trace (writer_stop s) = [EvLock; EvClose (client_fd s); EvUnlock].
Proof.
  intros H. rewrite writer_stop_eq. simpl.
  destruct (Z.geb_spec (client_fd s) 0); [reflexivity | lia].
Qed.

(** ** Waiting for the first connection *)

Lemma wait_loop_connected (wakeups : list (Z * Z)) (s : state) :
  client_fd s <> -1 ->
  wait_loop wakeups s = mkRes (Ret tt) s [].
Proof.
  intros H. destruct wakeups as [| [r seen] wakeups]; simpl; unfold bind; simpl;
    destruct (Z.eqb_spec (client_fd s) (-1)); try contradiction; reflexivity.
Qed.

Lemma wait_loop_nil (s : state) :
  client_fd s = -1 -> wait_loop [] s = mkRes Blocked s [].
Proof. intros H. simpl. unfold bind; simpl. rewrite H. reflexivity. Qed.

Lemma wait_loop_cons (r seen : Z) (wakeups : list (Z * Z)) (s : state) :
  client_fd s = -1 ->
  wait_loop ((r, seen) :: wakeups) s =
  if r =? 0 then
    let l := wait_loop wakeups (set_client_fd seen s) in
    mkRes (out l) (post l) (EvCondWait r :: trace l)
  else mkRes Aborted (set_client_fd seen s) [EvCondWait r; EvAbort].
Proof.
  intros H. simpl. unfold bind at 1. simpl. rewrite H. simpl.
  unfold bind at 1. simpl. unfold bind at 1. simpl.
  destruct (r =? 0).
  - destruct (wait_loop wakeups (set_client_fd seen s)); reflexivity.
  - reflexivity.
Qed.

Lemma wait_loop_returns (wakeups : list (Z * Z)) :
  forall s : state,
    out (wait_loop wakeups s) = Ret tt ->
    client_fd (post (wait_loop wakeups s)) <> -1.
Proof.
  induction wakeups as [| [r seen] wakeups IH]; intros s;
    destruct (Z.eq_dec (client_fd s) (-1)) as [E | E];
    try (rewrite wait_loop_connected by exact E; intros _; exact E).
  - rewrite wait_loop_nil by exact E. discriminate.
  - rewrite wait_loop_cons by exact E.
    destruct (r =? 0); [| discriminate]. simpl. apply IH.
Qed.

Lemma wait_loop_spurious (sp : list (Z * Z)) :
  forall s : state,
    client_fd s = -1 ->
    Forall spurious sp ->
    wait_loop sp s = mkRes Blocked s (map (fun _ => EvCondWait 0) sp) /\
    forall (fd : Z) (rest : list (Z * Z)),
      fd <> -1 ->
      wait_loop (sp ++ (0, fd) :: rest) s
      = mkRes (Ret tt) (set_client_fd fd s)
              (map (fun _ => EvCondWait 0) sp ++ [EvCondWait 0]).
Proof.
  induction sp as [| w sp IH]; intros s Hs Hsp.
  - split.
    + apply wait_loop_nil. exact Hs.
    + intros fd rest Hfd. simpl app. rewrite wait_loop_cons by exact Hs.
      simpl. rewrite wait_loop_connected by exact Hfd. reflexivity.
  - inversion Hsp as [| w' sp' Hw Hsp']; subst. unfold spurious in Hw. subst w.
    assert (Hs' : set_client_fd (-1) s = s)
      by (rewrite <- Hs; apply set_client_fd_same).
    destruct (IH s Hs Hsp') as [IH1 IH2].
    split.
    + rewrite wait_loop_cons by exact Hs. simpl. rewrite Hs', IH1.
      reflexivity.
    + intros fd rest Hfd. simpl app. rewrite wait_loop_cons by exact Hs.
      simpl. rewrite Hs', (IH2 fd rest Hfd). reflexivity.
Qed.

Lemma wait_for_connection_eq (wakeups : list (Z * Z)) (s : state) :
  let l := wait_loop wakeups s in
  wait_for_connection wakeups s =
  match out l with
  | Ret _ => mkRes (Ret tt) (post l) (EvLock :: trace l ++ [EvUnlock])
  | Aborted => mkRes Aborted (post l) (EvLock :: trace l)
  | Blocked => mkRes Blocked (post l) (EvLock :: trace l)
  end.
Proof.
  intros l. subst l. unfold wait_for_connection, bind; simpl.
  destruct (wait_loop wakeups s) as [[[] | |] s1 t1]; reflexivity.
Qed.

(** C8.  [wait_for_connection] returns only with a client recorded
    ([client_fd] differs from -1).  Started with no client, it stays blocked
    through any number of spurious wakeups (wakeups that find [client_fd]
    still -1), and returns at the first wakeup that finds a descriptor. *)
Theorem wait_for_connection_returns_connected
        (wakeups : list (Z * Z)) (s : state) :
  (out (wait_for_connection wakeups s) = Ret tt ->
   client_fd (post (wait_for_connection wakeups s)) <> -1) /\
  (client_fd s = -1 ->
   Forall spurious wakeups ->
   out (wait_for_connection wakeups s) = Blocked /\
   forall (fd : Z) (rest : list (Z * Z)),
     fd <> -1 ->
     out (wait_for_connection (wakeups ++ (0, fd) :: rest) s) = Ret tt /\
     client_fd (post (wait_for_connection (wakeups ++ (0, fd) :: rest) s))
     = fd).
Proof.
  split.
  - rewrite wait_for_connection_eq.
    pose proof (wait_loop_returns wakeups s) as H.
    destruct (out (wait_loop wakeups s)) as [[] | |]; simpl;
      try discriminate.
    intros _. apply H. reflexivity.
  - intros Hs Hsp. destruct (wait_loop_spurious wakeups s Hs Hsp) as [H1 H2].
    split.
    + rewrite wait_for_connection_eq, H1. reflexivity.
    + intros fd rest Hfd.
      rewrite wait_for_connection_eq, (H2 fd rest Hfd). simpl.
      split; reflexivity.
Qed.

Lemma wait_for_connection_returns_connected_witness :
  client_fd disconnected = -1 /\
  Forall spurious [(0, -1); (0, -1)] /\
  out (wait_for_connection [(0, -1); (0, -1)] disconnected) = Blocked /\
  out (wait_for_connection [(0, -1); (0, -1); (0, 7)] disconnected) = Ret tt /\
  client_fd (post (wait_for_connection [(0, -1); (0, -1); (0, 7)]
                                       disconnected)) <> -1.
Proof.
  assert (Hsp : Forall spurious [(0, -1); (0, -1)])
    by (repeat constructor).
  pose proof (wait_for_connection_returns_connected
                [(0, -1); (0, -1)] disconnected) as [_ H].
  destruct (H eq_refl Hsp) as [Hb Hr].
  destruct (Hr 7 [] ltac:(discriminate)) as [Ho _].
  split; [reflexivity |]. split; [exact Hsp |]. split; [exact Hb |].
  split; [exact Ho |].
  apply (wait_for_connection_returns_connected
           [(0, -1); (0, -1); (0, 7)] disconnected).
  exact Ho.
Defined.

(** ** Start-up *)

(** C9.  Called with no socket path and no [GHC_EVENTLOG_SOCKET] in the
    environment, [eventlog_socket_start] returns normally after the one-time
    initialisation of the mutex and the condition variable and the [getenv]
    lookup: no socket is created, bound or listened on, no thread is
    started, no producer hook is called, and the emission status, the
    installed writer, the trace flags and both descriptors are as before. *)
Theorem eventlog_socket_start_no_address
        (TICKY_TICKY wait : bool) (env : start_env) (s : state) :
  getenv_GHC_EVENTLOG_SOCKET env = None ->
  let r := eventlog_socket_start TICKY_TICKY None wait env s in
  out r = Ret tt /\
  post r = set_initialized true s /\
  trace r = (if initialized s then [] else [EvMutexInit; EvCondInit])
              ++ [EvGetenv "GHC_EVENTLOG_SOCKET"] /\
  existsb is_socket_op (trace r) = false /\
  existsb is_hook (trace r) = false /\
  eventLogStatus (post r) = eventLogStatus s /\
  event_log_writer (post r) = event_log_writer s /\
  TraceFlags (post r) = TraceFlags s /\
  listen_fd (post r) = listen_fd s /\
  client_fd (post r) = client_fd s.
Proof.
  intros Henv r. subst r.
  destruct env as [ge sr br cr wk]. simpl in Henv. subst ge.
  destruct s as [ini lfd cfd st w f]. destruct ini; vm_compute;
    repeat split; reflexivity.
Qed.

Lemma eventlog_socket_start_no_address_witness :
  let env := mkEnv None 4 0 0 [] in
  let s := initial_state EVENTLOG_NOT_CONFIGURED None no_flags in
  getenv_GHC_EVENTLOG_SOCKET env = None /\
  eventlog_socket_start false None true env s
  = mkRes (Ret tt) (set_initialized true s)
          [EvMutexInit; EvCondInit; EvGetenv "GHC_EVENTLOG_SOCKET"].
Proof.
  pose proof (eventlog_socket_start_no_address
                false true (mkEnv None 4 0 0 [])
                (initial_state EVENTLOG_NOT_CONFIGURED None no_flags)
                eq_refl) as H.
  split; [reflexivity |]. destruct H as [_ [_ _]]. reflexivity.
Defined.

(** With a path configured and logging supported, the socket is opened:
    the no-op above is tied to the missing address. *)
Example eventlog_socket_start_with_address :
  let env := mkEnv None 4 0 0 [] in
  let s := initial_state EVENTLOG_NOT_CONFIGURED None no_flags in
  let r := eventlog_socket_start false (Some "/tmp/test.sock") false env s in
  out r = Ret tt /\
  trace r = [EvMutexInit; EvCondInit; EvSocket 4; EvUnlink "/tmp/test.sock";
             EvBind 4 "/tmp/test.sock" true 0; EvThreadCreate 0] /\
  listen_fd (post r) = 4 /\
  TraceFlags (post r)
  = mkTraceFlags TRACE_EVENTLOG false true true false true false false true.
Proof. vm_compute. repeat split; reflexivity. Qed.

(** [open_socket] as a table of its three ways out. *)
Lemma open_socket_eq (sock_path : string)
      (socket_ret bind_ret create_ret : Z) (s : state) :
  open_socket sock_path socket_ret bind_ret create_ret s =
  let s' := set_listen_fd socket_ret s in
  let pre := [EvSocket socket_ret; EvUnlink sock_path;
              EvBind socket_ret (substring 0 107 sock_path)
                     (String.length sock_path <? 107)%nat bind_ret] in
  if bind_ret =? -1 then
    mkRes Aborted s' (pre ++ [EvPrintErr "failed to bind socket"; EvAbort])
  else if create_ret =? 0 then
    mkRes (Ret tt) s' (pre ++ [EvThreadCreate create_ret])
  else
    mkRes (Ret tt) s' (pre ++ [EvThreadCreate create_ret;
                               EvPrintErr "failed to spawn thread"]).
Proof.
  unfold open_socket, bind; simpl.
  destruct (bind_ret =? -1); simpl; [reflexivity |].
  destruct (create_ret =? 0); reflexivity.
Qed.

(** The two set-up failures that end the process. *)
Lemma open_socket_bind_failure_aborts
      (sock_path : string) (socket_ret create_ret : Z) (s : state) :
  let r := open_socket sock_path socket_ret (-1) create_ret s in
  out r = Aborted /\
  last (trace r) EvLock = EvAbort /\
  existsb (fun e => match e with EvThreadCreate _ => true | _ => false end)
          (trace r) = false.
Proof. rewrite open_socket_eq. simpl. repeat split. Qed.

Lemma listen_failure_aborts (errno : Z) (s : state) :
  let r := listener_step AtListen (-1) errno s in
  out r = Aborted /\ last (trace r) EvLock = EvAbort.
Proof. split; reflexivity. Qed.

Lemma listen_failure_kills_process (errno : Z) (s : state) (i : input) :
  exists (y : sys) (t : list event),
    sys_step (Listener (-1) errno) (listener_init s) = Some (y, t) /\
    alive y = false /\
    last t EvLock = EvAbort /\
    sys_step i y = None.
Proof.
  eexists; eexists. split; [reflexivity |].
  split; [reflexivity |]. split; reflexivity.
Qed.

(** C5 (the code departs from it).  The claim: a bind failure, a listen
    failure and a failure to start the listener thread each abort the
    process.  The first two do ([open_socket_bind_failure_aborts],
    [listen_failure_aborts]).  When [pthread_create] fails, [open_socket]
    prints the error and returns: [abort()] is not called. *)
Theorem open_socket_spawn_failure_returns
        (sock_path : string) (socket_ret bind_ret create_ret : Z)
        (s : state) :
  bind_ret <> -1 ->
  create_ret <> 0 ->
  let r := open_socket sock_path socket_ret bind_ret create_ret s in
  out r = Ret tt /\
  existsb is_abort (trace r) = false /\
  last (trace r) EvLock = EvPrintErr "failed to spawn thread".
Proof.
  intros Hb Hc r. subst r. rewrite open_socket_eq.
  destruct (Z.eqb_spec bind_ret (-1)); [contradiction |].
  destruct (Z.eqb_spec create_ret 0); [contradiction |].
  repeat split.
Qed.

Lemma open_socket_spawn_failure_returns_witness :
  let r := open_socket "/tmp/test.sock" 3 0 11 disconnected in
  out r = Ret tt /\ existsb is_abort (trace r) = false.
Proof.
  pose proof (open_socket_spawn_failure_returns
                "/tmp/test.sock" 3 0 11 disconnected
                ltac:(discriminate) ltac:(discriminate)) as [H1 [H2 _]].
  split; [exact H1 | exact H2].
Defined.

(** After such a failure no listener exists, so a caller that asked to wait
    for the first connection waits for a broadcast nobody sends. *)
Lemma start_wait_without_listener_blocks :
  let env := mkEnv None 3 0 11 [] in
  let r := eventlog_socket_start false (Some "/tmp/test.sock") true env
                                 disconnected in
  out r = Blocked /\ existsb is_abort (trace r) = false.
Proof. vm_compute. split; reflexivity. Qed.

(** ** The listener interleaved with the producer *)

Lemma run_snoc (ins : list input) (i : input) :
  forall y0 : sys,
    run (ins ++ [i]) y0 =
    match run ins y0 with
    | Some (y, t) =>
        match sys_step i y with
        | Some (y', t') => Some (y', t ++ t')
        | None => None
        end
    | None => None
    end.
Proof.
  induction ins as [| j ins IH]; intros y0; simpl.
  - destruct (sys_step i y0) as [[y' t'] |]; [| reflexivity].
    rewrite app_nil_r. reflexivity.
  - destruct (sys_step j y0) as [[y1 t1] |]; [| reflexivity].
    rewrite IH. destruct (run ins y1) as [[y2 t2] |]; [| reflexivity].
    destruct (sys_step i y2) as [[y3 t3] |]; [| reflexivity].
    rewrite app_assoc. reflexivity.
Qed.

Lemma startEventLogging_eq (s : state) :
  startEventLogging s =
  mkRes (Ret tt)
        (match eventLogStatus s with
         | EVENTLOG_NOT_CONFIGURED =>
             set_status EVENTLOG_RUNNING (Some socket_writer) s
         | _ => s
         end)
        [EvStartLogging].
Proof.
  unfold startEventLogging, writer_init, bind; simpl.
  destruct (eventLogStatus s); reflexivity.
Qed.

Lemma endEventLogging_eq (s : state) :
  endEventLogging s =
  match eventLogStatus s, event_log_writer s with
  | EVENTLOG_RUNNING, Some socket_writer =>
      mkRes (Ret tt)
            (set_status EVENTLOG_NOT_CONFIGURED None (set_client_fd (-1) s))
            (EvEndLogging :: trace (writer_stop s))
  | EVENTLOG_RUNNING, _ =>
      mkRes (Ret tt) (set_status EVENTLOG_NOT_CONFIGURED None s)
            [EvEndLogging]
  | _, _ => mkRes (Ret tt) s [EvEndLogging]
  end.
Proof.
  unfold endEventLogging. unfold bind at 1 2. simpl.
  destruct (eventLogStatus s); simpl; try (destruct (event_log_writer s) as [[|]|]; reflexivity).
  unfold bind at 1 2. simpl.
  destruct (event_log_writer s) as [[|] |]; simpl; try reflexivity.
  rewrite writer_stop_eq. simpl. rewrite app_nil_r. reflexivity.
Qed.

(** The listener step as a table: next program point, state and events. *)
Lemma listener_step_eq (p : pc) (r errno : Z) (s : state) :
  listener_step p r errno s =
  match p with
  | AtListen =>
      if r =? -1 then
        mkRes Aborted s [EvListen (listen_fd s) LISTEN_BACKLOG r;
                         EvPrintErr "listen() failed"; EvAbort]
      else mkRes (Ret AtAccept) s [EvListen (listen_fd s) LISTEN_BACKLOG r]
  | AtAccept => mkRes (Ret (AtPublish r)) s [EvAccept (listen_fd s) r]
  | AtPublish fd =>
      mkRes (Ret (AtStart fd)) (set_client_fd fd s) [EvLock; EvUnlock]
  | AtStart _ =>
      mkRes (Ret AtBroadcast) (post (startEventLogging s)) [EvStartLogging]
  | AtBroadcast => mkRes (Ret AtPollInit) s [EvBroadcast]
  | AtPollInit => mkRes (Ret (AtPoll (client_fd s))) s []
  | AtPoll fd =>
      if (r =? -1) && negb (errno =? EAGAIN) then
        mkRes (Ret AtClear) s [EvPoll fd r errno; EvPrintErr "poll() failed"]
      else if r >? 0 then mkRes (Ret AtClear) s [EvPoll fd r errno]
      else mkRes (Ret (AtPoll fd)) s [EvPoll fd r errno]
  | AtClear => mkRes (Ret AtEnd) (set_client_fd (-1) s) []
  | AtEnd =>
      mkRes (Ret AtListen) (post (endEventLogging s))
            (trace (endEventLogging s))
  end.
Proof.
  destruct p; unfold listener_step.
  - unfold PRINT_ERR, bind; simpl. destruct (r =? -1); reflexivity.
  - reflexivity.
  - reflexivity.
  - unfold bind at 1. rewrite startEventLogging_eq. reflexivity.
  - reflexivity.
  - reflexivity.
  - unfold PRINT_ERR, bind; simpl.
    destruct ((r =? -1) && negb (errno =? EAGAIN)); simpl; [reflexivity |].
    destruct (r >? 0); reflexivity.
  - reflexivity.
  - unfold bind at 1. rewrite endEventLogging_eq.
    destruct (eventLogStatus s); simpl;
      destruct (event_log_writer s) as [[|] |]; simpl;
      rewrite ?app_nil_r; reflexivity.
Qed.

(** What a listener step can do to [client_fd]: publish at [AtPublish],
    clear at [AtClear] and (through [stop]) at [AtEnd], nothing elsewhere. *)
Lemma listener_step_client_fd (p : pc) (r errno : Z) (s : state) :
  let l := listener_step p r errno s in
  match p with
  | AtPublish fd => client_fd (post l) = fd
  | AtClear => client_fd (post l) = -1
  | AtEnd => client_fd (post l) = client_fd s \/ client_fd (post l) = -1
  | _ => client_fd (post l) = client_fd s
  end.
Proof.
  cbv zeta. rewrite listener_step_eq.
  destruct p; rewrite ?startEventLogging_eq, ?endEventLogging_eq; simpl;
    split_tests; auto.
Qed.

(** Where a listener step goes; only the one at [AtListen] can abort. *)
Lemma listener_step_next (p : pc) (r errno : Z) (s : state) :
  let l := listener_step p r errno s in
  match p with
  | AtListen => out l = Ret AtAccept \/ out l = Aborted
  | AtAccept => out l = Ret (AtPublish r)
  | AtPublish fd => out l = Ret (AtStart fd)
  | AtStart _ => out l = Ret AtBroadcast
  | AtBroadcast => out l = Ret AtPollInit
  | AtPollInit => out l = Ret (AtPoll (client_fd s))
  | AtPoll fd => out l = Ret AtClear \/ out l = Ret (AtPoll fd)
  | AtClear => out l = Ret AtEnd
  | AtEnd => out l = Ret AtListen
  end.
Proof.
  cbv zeta. rewrite listener_step_eq.
  destruct p; simpl; split_tests; auto.
Qed.

Lemma sys_step_slot_empty (i : input) (y y' : sys) (t : list event) :
  slot_empty_between_clients y ->
  sys_step i y = Some (y', t) ->
  slot_empty_between_clients y'.
Proof.
  unfold slot_empty_between_clients, sys_step, after.
  intros Hinv. destruct (alive y); [| discriminate].
  destruct i as [r errno | eventlog sz rets |].
  - pose proof (listener_step_client_fd (lpc y) r errno (mem y)) as Hc.
    pose proof (listener_step_next (lpc y) r errno (mem y)) as Hn.
    cbv zeta in Hc, Hn.
    destruct (lpc y) eqn:Epc;
      repeat match goal with
             | H : _ \/ _ |- _ => destruct H
             end;
      match goal with
      | H : out _ = _ |- _ => rewrite H
      end;
      intros Hs; inversion Hs; subst; simpl; rewrite ?Epc;
      try exact I; congruence.
  - destruct (writer_write_spec eventlog sz rets (mem y))
      as [Hp [[Ho | Ho] _]]; rewrite Ho; [| discriminate].
    intros Hs; inversion Hs; subst; simpl. rewrite Hp. exact Hinv.
  - rewrite writer_stop_eq. simpl.
    intros Hs; inversion Hs; subst; simpl.
    destruct (lpc y); try exact I; reflexivity.
Qed.

Lemma run_slot_empty (ins : list input) :
  forall (y0 y : sys) (t : list event),
    slot_empty_between_clients y0 ->
    run ins y0 = Some (y, t) ->
    slot_empty_between_clients y.
Proof.
  induction ins as [| i ins IH]; intros y0 y t Hinv; simpl.
  - intros H; inversion H; subst; exact Hinv.
  - destruct (sys_step i y0) as [[y1 t1] |] eqn:E; [| discriminate].
    destruct (run ins y1) as [[y2 t2] |] eqn:E2; [| discriminate].
    intros H; inversion H; subst.
    eapply IH; [| exact E2]. eapply sys_step_slot_empty; eassumption.
Qed.

(** C2.  The connection state has one slot, [client_fd], so at most one
    client is recorded at any instant.  In every run of the listener,
    interleaved in any way with [write] and [stop] calls of other threads,
    the slot is empty whenever the listener is about to call [listen] or
    [accept] and whenever it is about to publish the descriptor [accept]
    returned: a descriptor is only ever stored into an empty slot. *)
Theorem single_active_client (s0 : state) (ins : list input) (y : sys)
        (t : list event) :
  client_fd s0 = -1 ->
  run ins (listener_init s0) = Some (y, t) ->
  (lpc y = AtListen \/ lpc y = AtAccept \/ exists fd, lpc y = AtPublish fd) ->
  client_fd (mem y) = -1 /\ ActiveClient (mem y) = None.
Proof.
  intros H0 Hrun Hpc.
  assert (Hinv : slot_empty_between_clients y).
  { eapply run_slot_empty; [| exact Hrun]. exact H0. }
  unfold slot_empty_between_clients in Hinv.
  assert (Hc : client_fd (mem y) = -1).
  { destruct Hpc as [E | [E | [fd E]]]; rewrite E in Hinv; exact Hinv. }
  split; [exact Hc |]. apply ActiveClient_none. lia.
Qed.

Lemma single_active_client_witness :
  client_fd disconnected = -1 /\
  run one_session (listener_init disconnected)
  = Some (one_session_end, one_session_trace) /\
  lpc one_session_end = AtAccept /\
  delivered 7 one_session_trace = [x61; x62; x63] /\
  client_fd (mem one_session_end) = -1 /\
  ActiveClient (mem one_session_end) = None.
Proof.
  split; [reflexivity |].
  split; [vm_compute; reflexivity |].
  split; [reflexivity |].
  split; [reflexivity |].
  apply (single_active_client disconnected one_session one_session_end
                              one_session_trace).
  - reflexivity.
  - vm_compute; reflexivity.
  - right; left; reflexivity.
Defined.

(** The teardown clears the slot before it ends logging, so the [stop] that
    [endEventLogging] triggers finds no descriptor: in [one_session] the
    descriptor of the client is never closed. *)
Remark one_session_never_closes :
  existsb is_close one_session_trace = false.
Proof. reflexivity. Qed.

(** ** Publication before start *)

Lemma last_accept_app (t u : list event) :
  last_accept (t ++ u) =
  match last_accept u with
  | Some r => Some r
  | None => last_accept t
  end.
Proof.
  induction t as [| e t IH]; simpl.
  - destruct (last_accept u); reflexivity.
  - destruct e; try exact IH.
    rewrite IH. destruct (last_accept u); [reflexivity |].
    destruct (last_accept t); reflexivity.
Qed.

Lemma writer_events_no_accept (t : list event) :
  forallb is_writer_event t = true -> last_accept t = None.
Proof.
  induction t as [| e t IH]; simpl; [reflexivity |].
  destruct e; simpl; try discriminate; exact IH.
Qed.

Lemma writer_events_no_start (t : list event) :
  forallb is_writer_event t = true -> ~ In EvStartLogging t.
Proof.
  intros H Hin. rewrite forallb_forall in H. specialize (H _ Hin).
  discriminate H.
Qed.

Lemma writer_stop_events (s : state) :
  forallb is_writer_event (trace (writer_stop s)) = true.
Proof. rewrite writer_stop_eq. simpl. destruct (client_fd s >=? 0); reflexivity. Qed.

(** A step of a producer thread: the listener stays where it is, the trace
    gains writer events only, and [client_fd] changes only by a [stop]. *)
Lemma producer_step (i : input) (y y' : sys) (t' : list event) :
  is_producer i = true ->
  sys_step i y = Some (y', t') ->
  lpc y' = lpc y /\
  forallb is_writer_event t' = true /\
  (is_stop i = false -> mem y' = mem y).
Proof.
  unfold sys_step, after. destruct (alive y); [| discriminate].
  destruct i as [r errno | eventlog sz rets |]; [discriminate | |]; intros _.
  - destruct (writer_write_spec eventlog sz rets (mem y))
      as [Hp [[Ho | Ho] [Hw _]]]; rewrite Ho; [| discriminate].
    intros Hs; inversion Hs; subst; simpl. auto.
  - pose proof (writer_stop_events (mem y)) as Hw.
    rewrite writer_stop_eq in *. simpl in *.
    intros Hs; inversion Hs; subst; simpl.
    split; [reflexivity |]. split; [exact Hw | discriminate].
Qed.

(** A step of the listener, read off its table. *)
Lemma listener_sys_step (r errno : Z) (y y' : sys) (t' : list event) :
  sys_step (Listener r errno) y = Some (y', t') ->
  let l := listener_step (lpc y) r errno (mem y) in
  mem y' = post l /\ t' = trace l /\
  (out l = Ret (lpc y') \/ (out l = Aborted /\ lpc y' = lpc y)).
Proof.
  unfold sys_step, after. destruct (alive y); [| discriminate].
  cbv zeta.
  destruct (out (listener_step (lpc y) r errno (mem y))) eqn:Eo;
    intros Hs; inversion Hs; subst; simpl; auto.
Qed.

Lemma run_publish_invariant (s0 : state) (ins : list input) :
  forall (y : sys) (t : list event),
    run ins (listener_init s0) = Some (y, t) ->
    publish_invariant s0 ins y t.
Proof.
  induction ins as [| i ins IH] using rev_ind; intros y' tt'.
  - simpl. intros H; inversion H; subst.
    split; intros fd Hpc; discriminate Hpc.
  - rewrite run_snoc.
    destruct (run ins (listener_init s0)) as [[y t] |] eqn:Erun;
      [| discriminate].
    destruct (sys_step i y) as [[y1 t'] |] eqn:Estep; [| discriminate].
    intros H; inversion H; subst y1 tt'; clear H.
    destruct (IH y t eq_refl) as [IHp IHs].
    destruct (is_producer i) eqn:Eprod.
    + (* a producer thread *)
      destruct (producer_step i y y' t' Eprod Estep) as [Hpc [Hw Hmem]].
      assert (Hla : last_accept (t ++ t') = last_accept t)
        by (rewrite last_accept_app, (writer_events_no_accept t' Hw);
            reflexivity).
      split; intros fd Hfd; rewrite Hpc in Hfd; rewrite Hla.
      * apply IHp. exact Hfd.
      * destruct (IHs fd Hfd) as [Hl Hpub]. split; [exact Hl |].
        destruct Hpub as (ins1 & ins2 & r & e & y1 & t1 &
                          Hins & Hr1 & Hp1 & Hprod & Hfdv).
        exists ins1, (ins2 ++ [i]), r, e, y1, t1.
        split; [rewrite Hins, <- app_assoc; reflexivity |].
        split; [exact Hr1 |]. split; [exact Hp1 |].
        split; [rewrite forallb_app, Hprod; simpl; rewrite Eprod;
                reflexivity |].
        rewrite existsb_app. intros Hns.
        apply orb_false_elim in Hns. destruct Hns as [Hns1 Hns2].
        simpl in Hns2. rewrite orb_false_r in Hns2.
        rewrite (Hmem Hns2). apply Hfdv. exact Hns1.
    + (* the listener *)
      destruct i as [r errno | |]; try discriminate.
      destruct (listener_sys_step r errno y y' t' Estep) as [Hm [Ht Ho]].
      rewrite listener_step_eq in Hm, Ht, Ho.
      destruct (lpc y) eqn:Epc; simpl in Hm, Ht, Ho;
        repeat match type of Ho with
               | context [if ?c then _ else _] =>
                   destruct c eqn:?; simpl in Hm, Ht, Ho
               end;
        destruct Ho as [Ho | [Ho Hsame]]; try discriminate Ho;
        try (inversion Ho as [Hnext]);
        split; intros fd' Hfd'; try congruence.
      * (* accept returned [r] *)
        rewrite <- Hnext in Hfd'. inversion Hfd'; subst fd'.
        rewrite Ht, last_accept_app. reflexivity.
      * (* the publication *)
        rewrite <- Hnext in Hfd'. inversion Hfd'; subst fd'.
        rewrite Ht, last_accept_app. simpl.
        split; [apply IHp; reflexivity |].
        exists ins, [], r, errno, y, t.
        split; [reflexivity |]. split; [exact Erun |].
        split; [exact Epc |]. split; [reflexivity |].
        intros _. rewrite Hm. reflexivity.
Qed.

(** The start hook is invoked by the listener's step at [AtStart] and by no
    other step. *)
Lemma start_hook_step (i : input) (y y' : sys) (t' : list event) :
  sys_step i y = Some (y', t') ->
  In EvStartLogging t' ->
  exists fd, lpc y = AtStart fd /\
             client_fd (mem y') = client_fd (mem y).
Proof.
  intros Hstep Hin.
  destruct (is_producer i) eqn:Eprod.
  - destruct (producer_step i y y' t' Eprod Hstep) as [_ [Hw _]].
    destruct (writer_events_no_start t' Hw Hin).
  - destruct i as [r errno | |]; try discriminate.
    destruct (listener_sys_step r errno y y' t' Hstep) as [Hm [Ht _]].
    rewrite listener_step_eq in Hm, Ht.
    destruct (lpc y) eqn:Epc; simpl in Hm, Ht;
      repeat match type of Ht with
             | context [if ?c then _ else _] =>
                 destruct c eqn:?; simpl in Hm, Ht
             end;
      try (subst t'; simpl in Hin; intuition discriminate).
    + exists fd. split; [reflexivity |].
      rewrite Hm, startEventLogging_eq. simpl.
      destruct (eventLogStatus (mem y)); reflexivity.
    + exfalso. rewrite endEventLogging_eq in Ht.
      pose proof (writer_stop_events (mem y)) as Hw.
      destruct (eventLogStatus (mem y));
        destruct (event_log_writer (mem y)) as [[|] |];
        subst t'; simpl in Hin;
        destruct Hin as [Hin | Hin]; try discriminate Hin;
        try destruct Hin.
      exact (writer_events_no_start _ Hw Hin).
Qed.

(** In a run in which no other thread calls [stop], [client_fd] holds what
    the latest [accept] returned from the publication up to the store that
    clears it. *)
Lemma run_stream_invariant (s0 : state) (ins : list input) :
  forall (y : sys) (t : list event),
    run ins (listener_init s0) = Some (y, t) ->
    existsb is_stop ins = false ->
    streaming (lpc y) = true ->
    last_accept t = Some (client_fd (mem y)).
Proof.
  induction ins as [| i ins IH] using rev_ind; intros y' tt'.
  - simpl. intros H; inversion H; subst. discriminate.
  - rewrite run_snoc.
    destruct (run ins (listener_init s0)) as [[y t] |] eqn:Erun;
      [| discriminate].
    destruct (sys_step i y) as [[y1 t'] |] eqn:Estep; [| discriminate].
    intros H; inversion H; subst y1 tt'; clear H.
    rewrite existsb_app. intros Hns.
    apply orb_false_elim in Hns. destruct Hns as [Hns Hi].
    simpl in Hi. rewrite orb_false_r in Hi.
    specialize (IH y t eq_refl Hns).
    destruct (run_publish_invariant s0 ins y t Erun) as [Hpub _].
    destruct (is_producer i) eqn:Eprod.
    + destruct (producer_step i y y' t' Eprod Estep) as [Hpc [Hw Hmem]].
      rewrite Hpc, (Hmem Hi), last_accept_app,
        (writer_events_no_accept t' Hw).
      exact IH.
    + destruct i as [r errno | |]; try discriminate.
      destruct (listener_sys_step r errno y y' t' Estep) as [Hm [Ht Ho]].
      rewrite listener_step_eq in Hm, Ht, Ho.
      destruct (lpc y) eqn:Epc; simpl in Hm, Ht, Ho;
        repeat match type of Ho with
               | context [if ?c then _ else _] =>
                   destruct c eqn:?; simpl in Hm, Ht, Ho
               end;
        destruct Ho as [Ho | [Ho Hsame]]; try discriminate Ho;
        try (inversion Ho as [Hnext]); try rewrite Hsame;
        try rewrite <- Hnext;
        simpl; try discriminate; intros _;
        rewrite Ht, Hm, last_accept_app; simpl;
        try (apply IH; reflexivity).
      * apply Hpub. reflexivity.
      * rewrite startEventLogging_eq. simpl.
        rewrite (IH eq_refl).
        destruct (eventLogStatus (mem y)); reflexivity.
Qed.

(** C6, counterexample.  The ordering does not give every record written
    after the start hook a target.  When [accept] fails (returns -1) the
    hook is called all the same and logging runs with no active client; and
    after a session on descriptor 7, once the teardown has cleared the slot
    and before it calls the end hook, logging still runs with no active
    client. *)
Lemma events_after_start_have_target_fails :
  (exists (y : sys) (t : list event),
      run (connect_inputs (-1)) (listener_init disconnected) = Some (y, t) /\
      in_session (lpc y) = 1%nat /\
      count_ev is_start t = 1%nat /\
      count_ev is_end t = 0%nat /\
      ActiveClient (mem y) = None) /\
  (exists (y : sys) (t : list event),
      run (connect_inputs 7 ++ [Listener 1 0; Listener 0 0])
          (listener_init disconnected) = Some (y, t) /\
      lpc y = AtEnd /\
      in_session (lpc y) = 1%nat /\
      count_ev is_start t = 1%nat /\
      count_ev is_end t = 0%nat /\
      ActiveClient (mem y) = None) /\
  ~ events_after_start_have_target.
Proof.
  split; [| split].
  - eexists; eexists. split; [vm_compute; reflexivity |].
    repeat split.
  - eexists; eexists. split; [vm_compute; reflexivity |].
    repeat split.
  - intros H.
    apply (H disconnected (connect_inputs (-1))
             (mkSys (set_status EVENTLOG_RUNNING (Some socket_writer)
                                (set_client_fd (-1) disconnected))
                    (AtPoll (-1)) true)
             [EvListen 3 LISTEN_BACKLOG 0; EvAccept 3 (-1); EvLock; EvUnlock;
              EvStartLogging; EvBroadcast]);
      reflexivity.
Qed.

(** C6, amended.  In every run of the listener, interleaved in any way with
    calls of producer threads, a step that invokes the producer-start hook
    is taken with the listener at [AtStart fd], where [fd] is what the
    latest [accept] returned, and the listener's step just before it was the
    publication of [fd] into [client_fd]; the hook leaves [client_fd] alone.
    In a run in which no other thread calls [stop], from the call of the
    start hook up to the store that clears the slot, [client_fd] holds what
    the latest [accept] returned; when that [accept] succeeded (returned a
    non-negative descriptor) it is the active client the write path reads.
    Nothing is promised after a failed [accept], nor between the clearing of
    the slot and the end hook. *)
Theorem start_hook_after_publish
        (s0 : state) (ins : list input) (y : sys) (t : list event) :
  run ins (listener_init s0) = Some (y, t) ->
  (forall (i : input) (y' : sys) (t' : list event),
      sys_step i y = Some (y', t') ->
      In EvStartLogging t' ->
      exists fd : Z,
        lpc y = AtStart fd /\
        last_accept t = Some fd /\
        published s0 ins fd y /\
        client_fd (mem y') = client_fd (mem y) /\
        (client_fd (mem y) = fd -> 0 <= fd ->
         ActiveClient (mem y') = Some fd)) /\
  (existsb is_stop ins = false ->
   streaming (lpc y) = true ->
   exists fd : Z,
     last_accept t = Some fd /\
     client_fd (mem y) = fd /\
     (0 <= fd -> ActiveClient (mem y) = Some fd)).
Proof.
  intros Hrun. split.
  - intros i y' t' Hstep Hin.
    destruct (start_hook_step i y y' t' Hstep Hin) as [fd [Hpc Hsame]].
    destruct (run_publish_invariant s0 ins y t Hrun) as [_ Hinv].
    destruct (Hinv fd Hpc) as [Hla Hpub].
    exists fd. split; [exact Hpc |]. split; [exact Hla |].
    split; [exact Hpub |]. split; [exact Hsame |].
    intros Hfd Hpos. apply ActiveClient_some; [exact Hpos |].
    rewrite Hsame. exact Hfd.
  - intros Hns Hstr.
    exists (client_fd (mem y)).
    split; [exact (run_stream_invariant s0 ins y t Hrun Hns Hstr) |].
    split; [reflexivity |].
    intros Hpos. apply ActiveClient_some; [exact Hpos | reflexivity].
Qed.

Lemma start_hook_after_publish_witness :
  run until_start (listener_init disconnected)
  = Some (before_start, before_start_trace) /\
  sys_step (Listener 0 0) before_start = Some (after_start, [EvStartLogging]) /\
  In EvStartLogging [EvStartLogging] /\
  existsb is_stop until_start = false /\
  streaming (lpc before_start) = true /\
  (exists fd : Z,
      lpc before_start = AtStart fd /\
      last_accept before_start_trace = Some fd /\
      published disconnected until_start fd before_start /\
      client_fd (mem after_start) = client_fd (mem before_start) /\
      (client_fd (mem before_start) = fd -> 0 <= fd ->
       ActiveClient (mem after_start) = Some fd)) /\
  (exists fd : Z,
      last_accept before_start_trace = Some fd /\
      client_fd (mem before_start) = fd /\
      (0 <= fd -> ActiveClient (mem before_start) = Some fd)).
Proof.
  assert (Hrun : run until_start (listener_init disconnected)
                 = Some (before_start, before_start_trace))
    by (vm_compute; reflexivity).
  pose proof (start_hook_after_publish disconnected until_start before_start
                                       before_start_trace Hrun) as [H1 H2].
  split; [exact Hrun |].
  split; [vm_compute; reflexivity |].
  split; [left; reflexivity |].
  split; [reflexivity |].
  split; [reflexivity |].
  split.
  - apply (H1 (Listener 0 0) after_start [EvStartLogging]).
    + vm_compute; reflexivity.
    + left; reflexivity.
  - apply H2; reflexivity.
Defined.

(** The same states, evaluated: descriptor 7 is in the slot before and after
    the hook, and a record written right after the hook goes to it. *)
Example start_hook_sees_descriptor :
  lpc before_start = AtStart 7 /\
  client_fd (mem before_start) = 7 /\
  ActiveClient (mem after_start) = Some 7 /\
  trace (writer_write [x61; x62] 2 [2] (mem after_start))
  = [EvLock; EvWrite 7 [x61; x62] 2; EvUnlock].
Proof. vm_compute. repeat split; reflexivity. Qed.

(** * Further properties of the writer *)

Lemma count_ev_app (p : event -> bool) (t u : list event) :
  count_ev p (t ++ u) = (count_ev p t + count_ev p u)%nat.
Proof. unfold count_ev. rewrite filter_app, length_app. reflexivity. Qed.

(** The loop takes no lock, and releases the mutex exactly when it leaves
    early. *)
Lemma write_loop_locks (fd : Z) (eventlog : list byte) (rets : list Z) :
  forall (sz : Z) (s : state),
    let l := write_loop fd eventlog sz rets s in
    count_ev is_lock (trace l) = 0%nat /\
    count_ev is_unlock (trace l)
    = match out l with Ret (Some _) => 1%nat | _ => 0%nat end.
Proof.
  induction rets as [| r rets IH]; intros sz s l; subst l.
  - simpl. destruct (sz >? 0); split; reflexivity.
  - destruct (sz >? 0) eqn:Hsz.
    + rewrite write_loop_unfold by exact Hsz.
      destruct (to_int r =? -1); [split; reflexivity |].
      destruct (IH (size_sub sz (to_int r)) s) as [H1 H2].
      cbv zeta. simpl trace. simpl out.
      change (EvWrite fd (firstn (Z.to_nat sz) eventlog) r
                :: trace (write_loop fd eventlog (size_sub sz (to_int r)) rets s))
        with ([EvWrite fd (firstn (Z.to_nat sz) eventlog) r]
                ++ trace (write_loop fd eventlog (size_sub sz (to_int r)) rets s)).
      rewrite !count_ev_app, H1, H2. split; reflexivity.
    + rewrite write_loop_done by exact Hsz. split; reflexivity.
Qed.

(** X1.  [writer_write] takes the mutex exactly once, as its first action.
    Whenever it returns, the result is [true] and the mutex has been
    released exactly once, as its last action: on the no-client path, after
    a complete write and after a failed [write] alike.  While it is still
    inside a [write] call the mutex is held.  It never aborts. *)
Theorem writer_write_mutex_discipline (eventlog : list byte) (sz : Z)
        (rets : list Z) (s : state) :
  let r := writer_write eventlog sz rets s in
  hd EvUnlock (trace r) = EvLock /\
  count_ev is_lock (trace r) = 1%nat /\
  match out r with
  | Ret b =>
      b = true /\
      count_ev is_unlock (trace r) = 1%nat /\
      last (trace r) EvLock = EvUnlock
  | Blocked => count_ev is_unlock (trace r) = 0%nat
  | Aborted => False
  end.
Proof.
  intros r. subst r.
  destruct (Z.ltb_spec (client_fd s) 0) as [Hneg | Hpos].
  - rewrite writer_write_disconnected by exact Hneg. simpl. auto.
  - rewrite writer_write_connected by exact Hpos.
    destruct (write_loop_spec (client_fd s) eventlog rets sz s)
      as [_ [Ho [_ [_ [_ Hf]]]]].
    destruct (write_loop_locks (client_fd s) eventlog rets sz s) as [Hl Hu].
    destruct Ho as [Ho | [Ho | Ho]]; rewrite Ho in *; cbn [out trace hd].
    + change (EvLock :: ?t ++ [EvUnlock]) with ([EvLock] ++ t ++ [EvUnlock]).
      rewrite !count_ev_app, Hl, Hu.
      split; [reflexivity |]. split; [reflexivity |].
      split; [reflexivity |]. split; [reflexivity |].
      rewrite app_assoc. apply last_last.
    + destruct (Hf eq_refl) as [_ [Hlast Hin]].
      rewrite app_nil_r.
      change (EvLock :: ?t) with ([EvLock] ++ t).
      rewrite !count_ev_app, Hl, Hu.
      split; [reflexivity |]. split; [reflexivity |].
      split; [reflexivity |]. split; [reflexivity |].
      destruct (trace (write_loop (client_fd s) eventlog sz rets s));
        [destruct Hin | exact Hlast].
    + change (EvLock :: ?t) with ([EvLock] ++ t).
      rewrite !count_ev_app, Hl, Hu. auto.
Qed.

(** The loop on answers that are all positive and add up to [sz]. *)
Lemma write_loop_partial (fd : Z) (eventlog : list byte) (rets : list Z) :
  forall (sz : Z) (s : state),
    Forall (fun r => 0 < r) rets ->
    sum_Z rets = sz ->
    sz < 2 ^ 31 ->
    let l := write_loop fd eventlog sz rets s in
    out l = Ret None /\
    count_ev is_write (trace l) = List.length rets /\
    delivered fd (trace l)
    = flat_map (fun r => firstn (Z.to_nat r) eventlog) rets.
Proof.
  induction rets as [| r rets IH]; intros sz s Hpos Hsum Hsz l; subst l.
  - simpl in Hsum. subst sz. simpl. repeat split.
  - inversion Hpos as [| r' rets' Hr Hrest]; subst r' rets'.
    simpl in Hsum.
    assert (Hnn : 0 <= sum_Z rets).
    { clear - Hrest. induction Hrest as [| x l Hx Hl IHl]; simpl; lia. }
    rewrite write_loop_unfold by (apply Z.gtb_lt; lia).
    rewrite to_int_small by lia.
    destruct (Z.eqb_spec r (-1)); [lia |].
    assert (Hsub : size_sub sz r = sum_Z rets)
      by (unfold size_sub; rewrite Z.mod_small; lia).
    cbv zeta. rewrite Hsub.
    destruct (IH (sum_Z rets) s Hrest eq_refl ltac:(lia)) as [Ho [Hc Hd]].
    simpl. rewrite Ho, Hd.
    split; [reflexivity |]. split.
    + unfold count_ev in *. simpl. rewrite Hc. reflexivity.
    + rewrite Z.eqb_refl. destruct (Z.ltb_spec 0 r); [| lia]. simpl.
      rewrite firstn_firstn, Nat.min_l by lia. reflexivity.
Qed.

(** X2.  With a client connected and a kernel that takes a positive number
    of bytes at each call, [sz] bytes in all, [writer_write] makes one
    [write] call per answer, none fails, and it returns [true] once the
    count is used up.  Every call passes the start of the buffer, so what
    the client receives is, for each answer [r], the first [r] bytes of the
    buffer; this is the buffer itself only when the first call takes it
    whole. *)
Theorem writer_write_positive_answers (eventlog : list byte) (sz : Z)
        (rets : list Z) (s : state) :
  0 <= client_fd s ->
  Forall (fun r => 0 < r) rets ->
  sum_Z rets = sz ->
  sz < 2 ^ 31 ->
  let r := writer_write eventlog sz rets s in
  out r = Ret true /\
  count_ev is_write (trace r) = List.length rets /\
  write_failed (trace r) = false /\
  delivered (client_fd s) (trace r)
  = flat_map (fun r => firstn (Z.to_nat r) eventlog) rets.
Proof.
  intros Hfd Hpos Hsum Hsz r. subst r.
  rewrite writer_write_connected by exact Hfd.
  destruct (write_loop_partial (client_fd s) eventlog rets sz s
                               Hpos Hsum Hsz) as [Ho [Hc Hd]].
  destruct (write_loop_spec (client_fd s) eventlog rets sz s)
    as [_ [_ [_ [_ [Hn _]]]]].
  rewrite Ho. simpl.
  split; [reflexivity |]. split; [| split].
  - change (EvLock :: ?t ++ [EvUnlock]) with ([EvLock] ++ t ++ [EvUnlock]).
    rewrite !count_ev_app, Hc. unfold count_ev. simpl. lia.
  - rewrite write_failed_app, Hn by (left; exact Ho). reflexivity.
  - assert (Happ : forall t, delivered (client_fd s) (t ++ [EvUnlock])
                             = delivered (client_fd s) t).
    { induction t as [| e t IHt]; simpl; [reflexivity |].
      destruct e; try exact IHt. rewrite IHt. reflexivity. }
    rewrite Happ. exact Hd.
Qed.

Lemma writer_write_positive_answers_witness :
  let r := writer_write [x61; x62; x63] 3 [2; 1] (connected 5) in
  out r = Ret true /\
  count_ev is_write (trace r) = 2%nat /\
  delivered 5 (trace r) = [x61; x62; x61].
Proof.
  pose proof (writer_write_positive_answers
                [x61; x62; x63] 3 [2; 1] (connected 5)
                ltac:(discriminate)
                ltac:(repeat constructor)
                eq_refl eq_refl) as [H1 [H2 [_ H4]]].
  split; [exact H1 |]. split; [exact H2 | exact H4].
Defined.

(** X3.  A [write] that returns 0 makes no progress: the loop calls [write]
    again with the same arguments.  Any number of such answers in front of
    the others changes neither the outcome nor what the client receives,
    and with nothing but such answers the call never returns. *)
Theorem writer_write_zero_answers (eventlog : list byte) (sz : Z)
        (n : nat) (rets : list Z) (s : state) :
  0 <= client_fd s ->
  0 < sz < 2 ^ 64 ->
  let r0 := writer_write eventlog sz rets s in
  let r := writer_write eventlog sz (repeat 0 n ++ rets) s in
  out r = out r0 /\
  post r = post r0 /\
  delivered (client_fd s) (trace r) = delivered (client_fd s) (trace r0) /\
  count_ev is_write (trace r) = (n + count_ev is_write (trace r0))%nat /\
  out (writer_write eventlog sz (repeat 0 n) s) = Blocked.
Proof.
  intros Hfd Hsz r0 r. subst r0 r.
  assert (Hgt : (sz >? 0) = true) by (apply Z.gtb_lt; lia).
  assert (Hsub : size_sub sz (to_int 0) = sz)
    by (unfold size_sub; rewrite to_int_small by lia;
        rewrite Z.sub_0_r; apply Z.mod_small; lia).
  assert (Hloop : forall tl,
             let l0 := write_loop (client_fd s) eventlog sz tl s in
             let l := write_loop (client_fd s) eventlog sz (repeat 0 n ++ tl) s in
             out l = out l0 /\ post l = post l0 /\
             delivered (client_fd s) (trace l)
             = delivered (client_fd s) (trace l0) /\
             count_ev is_write (trace l)
             = (n + count_ev is_write (trace l0))%nat).
  { intros tl. induction n as [| n IHn]; cbv zeta; simpl repeat; simpl app.
    - repeat split.
    - rewrite write_loop_unfold by exact Hgt.
      change (to_int 0 =? -1) with false. cbv iota zeta. rewrite Hsub.
      destruct IHn as [H1 [H2 [H3 H4]]]. simpl.
      rewrite H1, H2, H3. unfold count_ev in *. simpl. rewrite H4.
      change (0 <? 0) with false. rewrite andb_false_r.
      repeat split. }
  assert (Hdl : forall t u, delivered (client_fd s) (t ++ u)
                            = delivered (client_fd s) t
                                ++ delivered (client_fd s) u).
  { intros t u. induction t as [| e t IHt]; simpl; [reflexivity |].
    destruct e; try exact IHt. rewrite IHt, app_assoc. reflexivity. }
  rewrite !writer_write_connected by exact Hfd.
  split; [| split; [| split; [| split]]].
  - destruct (Hloop rets) as [H1 _]. rewrite H1.
    destruct (out (write_loop (client_fd s) eventlog sz rets s))
      as [[b |] | |]; reflexivity.
  - destruct (Hloop rets) as [H1 [H2 _]]. rewrite H1, H2.
    destruct (out (write_loop (client_fd s) eventlog sz rets s))
      as [[b |] | |]; reflexivity.
  - destruct (Hloop rets) as [H1 [_ [H3 _]]]. rewrite H1.
    destruct (out (write_loop (client_fd s) eventlog sz rets s))
      as [[b |] | |]; simpl; rewrite ?Hdl, ?H3; reflexivity.
  - destruct (Hloop rets) as [H1 [_ [_ H4]]]. rewrite H1.
    destruct (out (write_loop (client_fd s) eventlog sz rets s))
      as [[b |] | |]; simpl;
      change (EvLock :: ?t ++ ?u) with ([EvLock] ++ t ++ u);
      change (EvLock :: ?t) with ([EvLock] ++ t);
      rewrite !count_ev_app, H4; unfold count_ev; simpl; lia.
  - destruct (Hloop []) as [H1 _]. rewrite app_nil_r in H1. rewrite H1.
    simpl. rewrite Hgt. reflexivity.
Qed.

Lemma writer_write_zero_answers_witness :
  out (writer_write [x61; x62] 2 [0; 0; 0; 2] (connected 5)) = Ret true /\
  delivered 5 (trace (writer_write [x61; x62] 2 [0; 0; 0; 2] (connected 5)))
  = [x61; x62] /\
  out (writer_write [x61; x62] 2 [0; 0; 0] (connected 5)) = Blocked.
Proof.
  pose proof (writer_write_zero_answers [x61; x62] 2 3 [2] (connected 5)
                ltac:(discriminate) ltac:(split; reflexivity))
    as [H1 [_ [H3 [_ H5]]]].
  split; [exact H1 |]. split; [exact H3 | exact H5].
Defined.

(** X4.  [stop] followed by [write]: after [writer_stop], whatever the
    state before, a [writer_write] is discarded without any [write] call and
    reports success.  When a client was connected, the [stop] closed its
    descriptor, once. *)
Theorem writer_stop_then_write (eventlog : list byte) (sz : Z)
        (rets : list Z) (s : state) :
  let s' := post (writer_stop s) in
  writer_write eventlog sz rets s' = mkRes (Ret true) s' [EvLock; EvUnlock] /\
  (0 <= client_fd s ->
   count_ev is_close (trace (writer_stop s)) = 1%nat /\
   In (EvClose (client_fd s)) (trace (writer_stop s))).
Proof.
  cbv zeta. rewrite writer_stop_eq. simpl. split.
  - apply writer_write_disconnected. simpl. lia.
  - intros Hfd. destruct (Z.geb_spec (client_fd s) 0); [| lia].
    split; [reflexivity | right; left; reflexivity].
Qed.

Lemma writer_stop_then_write_witness :
  writer_write [x61] 1 [1] (post (writer_stop (connected 5)))
  = mkRes (Ret true) (post (writer_stop (connected 5))) [EvLock; EvUnlock] /\
  In (EvClose 5) (trace (writer_stop (connected 5))).
Proof.
  pose proof (writer_stop_then_write [x61] 1 [1] (connected 5)) as [H1 H2].
  split; [exact H1 |].
  destruct (H2 ltac:(discriminate)) as [_ H]. exact H.
Defined.

(** * Further properties of the listener *)

Lemma run_app (a b : list input) :
  forall y0 : sys,
    run (a ++ b) y0 =
    match run a y0 with
    | Some (y1, t1) =>
        match run b y1 with
        | Some (y2, t2) => Some (y2, t1 ++ t2)
        | None => None
        end
    | None => None
    end.
Proof.
  induction a as [| i a IH]; intros y0; simpl.
  - destruct (run b y0) as [[y2 t2] |]; reflexivity.
  - destruct (sys_step i y0) as [[y1 t1] |]; [| reflexivity].
    rewrite IH. destruct (run a y1) as [[y2 t2] |]; [| reflexivity].
    destruct (run b y2) as [[y3 t3] |]; [| reflexivity].
    rewrite app_assoc. reflexivity.
Qed.

(** X5.  The disconnect wait.  A return of [poll] never changes the state.
    The listener polls again exactly when [poll] returned -1 with [errno]
    equal to [EAGAIN], or returned 0 or less than -1; it goes on to the
    teardown when [poll] returned a positive count or returned -1 with any
    other [errno] ([EINTR] included), and only in that last case prints an
    error. *)
Theorem poll_step_classification (pfd_fd r errno : Z) (s : state) :
  let l := listener_step (AtPoll pfd_fd) r errno s in
  post l = s /\
  (out l = Ret (AtPoll pfd_fd) \/ out l = Ret AtClear) /\
  (out l = Ret (AtPoll pfd_fd) <-> r <= 0 /\ (r = -1 -> errno = EAGAIN)) /\
  (In (EvPrintErr "poll() failed") (trace l) <-> r = -1 /\ errno <> EAGAIN).
Proof.
  cbv zeta. rewrite listener_step_eq.
  destruct (Z.eqb_spec r (-1)) as [Er | Er];
    destruct (Z.eqb_spec errno EAGAIN) as [Ee | Ee];
    destruct (Z.gtb_spec r 0) as [Eg | Eg]; simpl;
    (split; [reflexivity |]); (split; [auto |]);
    (split; split; intros H);
    try (inversion H; fail);
    try (exfalso; lia);
    try (exfalso; apply Ee; apply H; exact Er);
    try (exfalso; apply (proj2 H); exact Ee);
    try (exfalso; apply Er; exact (proj1 H));
    try (destruct H as [H | [H | []]]; discriminate H);
    try (destruct H as [H | []]; discriminate H);
    try reflexivity;
    try (split; [lia | intros; congruence]);
    try (split; assumption);
    try (right; left; reflexivity).
Qed.

(** A step other than a [stop] of another thread, taken with the slot empty
    wherever the listener is between two clients, closes nothing. *)
Lemma sys_step_no_close (i : input) (y y' : sys) (t : list event) :
  slot_empty_between_clients y ->
  is_stop i = false ->
  sys_step i y = Some (y', t) ->
  existsb is_close t = false.
Proof.
  intros Hinv Hns Hstep.
  destruct i as [r errno | eventlog sz rets |]; [| | discriminate].
  - destruct (listener_sys_step r errno y y' t Hstep) as [_ [Ht _]].
    rewrite listener_step_eq in Ht. subst t.
    unfold slot_empty_between_clients in Hinv.
    destruct (lpc y) eqn:Epc; simpl;
      repeat match goal with
             | |- context [if ?c then _ else _] => destruct c; simpl
             end; try reflexivity.
    rewrite endEventLogging_eq, writer_stop_eq, Hinv.
    destruct (eventLogStatus (mem y));
      destruct (event_log_writer (mem y)) as [[|] |]; reflexivity.
  - unfold sys_step, after in Hstep.
    destruct (alive y); [| discriminate].
    destruct (writer_write_spec eventlog sz rets (mem y))
      as [_ [[Ho | Ho] [_ Hc]]]; rewrite Ho in Hstep; [| discriminate].
    inversion Hstep; subst.
    clear - Hc. induction (trace (writer_write eventlog sz rets (mem y)))
      as [| e t IH]; simpl in *; [reflexivity |].
    apply andb_prop in Hc. destruct Hc as [He Ht].
    destruct (is_close e); [discriminate | exact (IH Ht)].
Qed.

Lemma run_no_close (ins : list input) :
  forall (y0 y : sys) (t : list event),
    slot_empty_between_clients y0 ->
    existsb is_stop ins = false ->
    run ins y0 = Some (y, t) ->
    existsb is_close t = false.
Proof.
  induction ins as [| i ins IH]; intros y0 y t Hinv Hns; simpl.
  - intros H; inversion H; reflexivity.
  - simpl in Hns. apply orb_false_elim in Hns. destruct Hns as [Hi Hrest].
    destruct (sys_step i y0) as [[y1 t1] |] eqn:E; [| discriminate].
    destruct (run ins y1) as [[y2 t2] |] eqn:E2; [| discriminate].
    intros H; inversion H; subst.
    rewrite existsb_app.
    rewrite (sys_step_no_close i y0 y1 t1 Hinv Hi E).
    apply (IH y1 y t2); [| exact Hrest | exact E2].
    eapply sys_step_slot_empty; eassumption.
Qed.

(** X6.  The listener never closes a client's descriptor.  In every run of
    the listener, interleaved with any [write] calls, in which no other
    thread calls [stop], no [close] is issued at all: the teardown clears
    [client_fd] before it calls [endEventLogging], so the [stop] callback
    that the hook triggers finds the slot empty. *)
Theorem listener_never_closes (s0 : state) (ins : list input) (y : sys)
        (t : list event) :
  client_fd s0 = -1 ->
  existsb is_stop ins = false ->
  run ins (listener_init s0) = Some (y, t) ->
  existsb is_close t = false.
Proof.
  intros H0 Hns Hrun.
  apply (run_no_close ins (listener_init s0) y t); try assumption.
Qed.

Lemma listener_never_closes_witness :
  client_fd disconnected = -1 /\
  existsb is_stop one_session = false /\
  run one_session (listener_init disconnected)
  = Some (one_session_end, one_session_trace) /\
  last_accept one_session_trace = Some 7 /\
  existsb is_close one_session_trace = false.
Proof.
  split; [reflexivity |]. split; [reflexivity |].
  split; [vm_compute; reflexivity |]. split; [reflexivity |].
  apply (listener_never_closes disconnected one_session one_session_end
                               one_session_trace).
  - reflexivity.
  - reflexivity.
  - vm_compute; reflexivity.
Defined.

Lemma run_connect (fd : Z) (s : state) :
  eventLogStatus s = EVENTLOG_NOT_CONFIGURED ->
  run (connect_inputs fd) (listener_init s)
  = Some (mkSys (set_status EVENTLOG_RUNNING (Some socket_writer)
                            (set_client_fd fd s))
                (AtPoll fd) true,
          [EvListen (listen_fd s) LISTEN_BACKLOG 0; EvAccept (listen_fd s) fd;
           EvLock; EvUnlock; EvStartLogging; EvBroadcast]).
Proof.
  intros Hst. destruct s as [ini lfd cfd st w f]. simpl in Hst. subst st.
  reflexivity.
Qed.

Lemma run_poll_retries (n : nat) (fd : Z) (s : state) :
  run (repeat (Listener (-1) EAGAIN) n) (mkSys s (AtPoll fd) true)
  = Some (mkSys s (AtPoll fd) true, repeat (EvPoll fd (-1) EAGAIN) n).
Proof.
  induction n as [| n IH]; [reflexivity |].
  change (repeat (Listener (-1) EAGAIN) (S n))
    with ([Listener (-1) EAGAIN] ++ repeat (Listener (-1) EAGAIN) n).
  rewrite run_app.
  change (run [Listener (-1) EAGAIN] (mkSys s (AtPoll fd) true))
    with (Some (mkSys s (AtPoll fd) true, [EvPoll fd (-1) EAGAIN])).
  cbv beta iota. rewrite IH. reflexivity.
Qed.

(** The listener alone through one whole session. *)
Lemma run_session (fd : Z) (retries : nat) (s : state) :
  client_fd s = -1 ->
  eventLogStatus s = EVENTLOG_NOT_CONFIGURED ->
  event_log_writer s = None ->
  run (session_inputs fd retries) (listener_init s)
  = Some (listener_init s, session_trace (listen_fd s) fd retries).
Proof.
  intros Hc Hst Hw.
  unfold session_inputs, session_trace.
  rewrite run_app, (run_connect fd s Hst).
  rewrite run_app, run_poll_retries.
  destruct s as [ini lfd cfd st w f]. simpl in Hc, Hst, Hw. subst cfd st w.
  reflexivity.
Qed.

(** X7.  One whole session leaves the process where it started.  From the
    state before a connection (empty slot, logging configured by nobody), a
    successful [listen], an [accept] that returns [fd], any number of [poll]
    returns with [EAGAIN] and then a hangup bring the listener back to
    [listen] with exactly the state it started from, ready for the next
    client.  The session calls the start hook and the end hook once each,
    and never [close]: the descriptor [fd] stays open. *)
Theorem session_round_trip (fd : Z) (retries : nat) (s : state) :
  client_fd s = -1 ->
  eventLogStatus s = EVENTLOG_NOT_CONFIGURED ->
  event_log_writer s = None ->
  run (session_inputs fd retries) (listener_init s)
  = Some (listener_init s, session_trace (listen_fd s) fd retries) /\
  existsb is_close (session_trace (listen_fd s) fd retries) = false.
Proof.
  intros Hc Hst Hw. split.
  - apply run_session; assumption.
  - unfold session_trace. rewrite !existsb_app. simpl.
    rewrite !orb_false_r.
    induction retries as [| n IH]; [reflexivity | exact IH].
Qed.

Lemma session_round_trip_witness :
  run (session_inputs 7 2) (listener_init disconnected)
  = Some (listener_init disconnected, session_trace 3 7 2).
Proof.
  pose proof (session_round_trip 7 2 disconnected eq_refl eq_refl eq_refl)
    as [H _].
  exact H.
Defined.

(** X8.  A failed [accept] is not checked.  When [accept] returns a negative
    value, the listener stores it in [client_fd], calls the start hook all
    the same and arms [poll] on that value: logging is running with no
    active client, and every record the producer writes is discarded without
    a [write] call. *)
Theorem accept_failure_starts_logging (a : Z) (s : state)
        (eventlog : list byte) (sz : Z) (rets : list Z) :
  a < 0 ->
  eventLogStatus s = EVENTLOG_NOT_CONFIGURED ->
  exists (y : sys) (t : list event),
    run (connect_inputs a) (listener_init s) = Some (y, t) /\
    lpc y = AtPoll a /\
    In EvStartLogging t /\
    eventLogStatus (mem y) = EVENTLOG_RUNNING /\
    ActiveClient (mem y) = None /\
    writer_write eventlog sz rets (mem y)
    = mkRes (Ret true) (mem y) [EvLock; EvUnlock].
Proof.
  intros Ha Hst. eexists; eexists.
  split; [apply run_connect; exact Hst |].
  split; [reflexivity |].
  split; [simpl; auto 10 |].
  split; [reflexivity |].
  split.
  - apply ActiveClient_none. simpl. exact Ha.
  - apply writer_write_disconnected. simpl. exact Ha.
Qed.

Lemma accept_failure_starts_logging_witness :
  exists (y : sys) (t : list event),
    run (connect_inputs (-1)) (listener_init disconnected) = Some (y, t) /\
    lpc y = AtPoll (-1) /\
    In EvStartLogging t /\
    eventLogStatus (mem y) = EVENTLOG_RUNNING /\
    ActiveClient (mem y) = None /\
    writer_write [x61] 1 [1] (mem y)
    = mkRes (Ret true) (mem y) [EvLock; EvUnlock].
Proof.
  apply (accept_failure_starts_logging (-1) disconnected [x61] 1 [1]).
  - reflexivity.
  - reflexivity.
Defined.

Lemma writer_events_no_hooks (t : list event) :
  forallb is_writer_event t = true ->
  count_ev is_start t = 0%nat /\ count_ev is_end t = 0%nat.
Proof.
  unfold count_ev. induction t as [| e t IH]; simpl; [auto |].
  destruct e; simpl; try discriminate; exact IH.
Qed.

Lemma sys_step_hooks (i : input) (y y' : sys) (t' : list event) :
  sys_step i y = Some (y', t') ->
  (count_ev is_start t' + in_session (lpc y)
   = count_ev is_end t' + in_session (lpc y'))%nat.
Proof.
  intros Hstep. destruct (is_producer i) eqn:Eprod.
  - destruct (producer_step i y y' t' Eprod Hstep) as [Hpc [Hw _]].
    destruct (writer_events_no_hooks t' Hw) as [H1 H2].
    rewrite H1, H2, Hpc. reflexivity.
  - destruct i as [r errno | |]; try discriminate.
    destruct (listener_sys_step r errno y y' t' Hstep) as [_ [Ht Ho]].
    rewrite listener_step_eq in Ht, Ho.
    destruct (lpc y) eqn:Epc; simpl in Ht, Ho;
      repeat match type of Ho with
             | context [if ?c then _ else _] =>
                 destruct c eqn:?; simpl in Ht, Ho
             end;
      destruct Ho as [Ho | [Ho Hsame]]; try discriminate Ho;
      try (inversion Ho as [Hnext]); try rewrite Hsame;
      try (subst t'; reflexivity).
    subst t'. rewrite endEventLogging_eq.
    destruct (writer_events_no_hooks _ (writer_stop_events (mem y)))
      as [H1 H2].
    destruct (eventLogStatus (mem y));
      destruct (event_log_writer (mem y)) as [[|] |]; try reflexivity.
    cbn [trace].
    change (EvEndLogging :: ?t) with ([EvEndLogging] ++ t).
    rewrite !count_ev_app, H1, H2. reflexivity.
Qed.

(** X9.  Start and end hooks come in pairs.  In every run of the listener,
    interleaved in any way with calls of producer threads, the number of
    start-hook calls equals the number of end-hook calls while the listener
    is between two sessions (from [listen] up to the call of the start
    hook), and exceeds it by exactly one from there to the call of the end
    hook: a session that was started is ended before the next [accept]. *)
Theorem hooks_come_in_pairs (s0 : state) (ins : list input) (y : sys)
        (t : list event) :
  run ins (listener_init s0) = Some (y, t) ->
  count_ev is_start t = (count_ev is_end t + in_session (lpc y))%nat.
Proof.
  revert y t. induction ins as [| i ins IH] using rev_ind; intros y' tt'.
  - simpl. intros H; inversion H; subst. reflexivity.
  - rewrite run_snoc.
    destruct (run ins (listener_init s0)) as [[y t] |] eqn:Erun;
      [| discriminate].
    destruct (sys_step i y) as [[y1 t'] |] eqn:Estep; [| discriminate].
    intros H; inversion H; subst y1 tt'; clear H.
    specialize (IH y t eq_refl).
    pose proof (sys_step_hooks i y y' t' Estep) as Hs.
    rewrite !count_ev_app. lia.
Qed.

Lemma hooks_come_in_pairs_witness :
  run one_session (listener_init disconnected)
  = Some (one_session_end, one_session_trace) /\
  count_ev is_start one_session_trace = 1%nat /\
  count_ev is_start one_session_trace
  = (count_ev is_end one_session_trace + in_session (lpc one_session_end))%nat.
Proof.
  split; [vm_compute; reflexivity |]. split; [reflexivity |].
  apply (hooks_come_in_pairs disconnected one_session one_session_end
                             one_session_trace).
  vm_compute; reflexivity.
Defined.

(** * Properties of the trace flags *)

Lemma same_but_classes_refl (s : state) : same_but_classes s s.
Proof. repeat split. Qed.

Lemma same_but_classes_trans (s1 s2 s3 : state) :
  same_but_classes s1 s2 -> same_but_classes s2 s3 -> same_but_classes s1 s3.
Proof.
  unfold same_but_classes.
  intros (A1 & A2 & A3 & A4 & A5 & A6) (B1 & B2 & B3 & B4 & B5 & B6).
  repeat split; congruence.
Qed.

Lemma trace_flag_case_frame (TICKY_TICKY : bool) (c : ascii) (enabled : bool)
      (s : state) :
  let r := trace_flag_case TICKY_TICKY c enabled s in
  (exists e', out r = Ret e') /\
  same_but_classes s (post r) /\
  forallb is_belch (trace r) = true.
Proof.
  cbv zeta. unfold trace_flag_case.
  repeat match goal with
         | |- context [if (c =? ?x)%char then _ else _] =>
             destruct (c =? x)%char
         end;
    try destruct TICKY_TICKY;
    (split; [eexists; reflexivity |]);
    (split; [repeat split | reflexivity]).
Qed.

Lemma trace_flags_loop_frame (TICKY_TICKY : bool) (arg : string) :
  forall (enabled : bool) (s : state),
    let r := trace_flags_loop TICKY_TICKY arg enabled s in
    out r = Ret tt /\
    same_but_classes s (post r) /\
    forallb is_belch (trace r) = true.
Proof.
  induction arg as [| c rest IH]; intros enabled s; cbv zeta.
  - simpl. repeat split.
  - simpl. destruct (c =? "000")%char; [simpl; repeat split |].
    destruct (trace_flag_case_frame TICKY_TICKY c enabled s)
      as [[e' He] [Hs Hb]].
    unfold bind.
    destruct (trace_flag_case TICKY_TICKY c enabled s) as [o1 s1 t1].
    simpl in He, Hs, Hb. subst o1.
    destruct (IH e' s1) as [Ho [Hs' Hb']].
    destruct (trace_flags_loop TICKY_TICKY rest e' s1) as [o2 s2 t2].
    simpl in *. subst o2.
    split; [reflexivity |].
    split; [eapply same_but_classes_trans; eassumption |].
    rewrite forallb_app, Hb, Hb'. reflexivity.
Qed.

Lemma read_trace_flags_eq (TICKY_TICKY : bool) (arg : string) (s : state) :
  read_trace_flags TICKY_TICKY arg s
  = trace_flags_loop TICKY_TICKY arg true
      (set_TraceFlags (default_classes (TraceFlags s)) s).
Proof.
  unfold read_trace_flags, bind, assign, modify. simpl.
  match goal with
  | |- context [trace_flags_loop _ _ _ ?st] =>
      change st with (set_TraceFlags (default_classes (TraceFlags s)) s)
  end.
  destruct (trace_flags_loop TICKY_TICKY arg true
              (set_TraceFlags (default_classes (TraceFlags s)) s));
    reflexivity.
Qed.

(** X10.  [read_trace_flags] always returns, whatever the flag string; the
    only events it produces are [errorBelch] lines; and it changes nothing
    but the trace classes: the globals, the logging status, the installed
    writer and the [tracing] field of the flags are as before. *)
Theorem read_trace_flags_frame (TICKY_TICKY : bool) (arg : string)
        (s : state) :
  let r := read_trace_flags TICKY_TICKY arg s in
  out r = Ret tt /\
  same_but_classes s (post r) /\
  forallb is_belch (trace r) = true.
Proof.
  cbv zeta. rewrite read_trace_flags_eq.
  destruct (trace_flags_loop_frame
              TICKY_TICKY arg true
              (set_TraceFlags (default_classes (TraceFlags s)) s))
    as [Ho [Hs Hb]].
  split; [exact Ho |]. split; [| exact Hb].
  eapply same_but_classes_trans; [| exact Hs]. repeat split.
Qed.

Lemma set_TraceFlags_same (s : state) : set_TraceFlags (TraceFlags s) s = s.
Proof. destruct s; reflexivity. Qed.

(** One character that is not a minus sign, read with [enabled] true, turns
    on the classes it names and leaves [enabled] true. *)
Lemma trace_flag_case_on (TICKY_TICKY : bool) (c : ascii) (s : state) :
  (c =? "-")%char = false ->
  exists t,
    trace_flag_case TICKY_TICKY c true s
    = mkRes (Ret true)
            (set_TraceFlags
               (classes_on TICKY_TICKY (String c "") (TraceFlags s)) s)
            t.
Proof.
  intros Hm. unfold trace_flag_case. rewrite Hm.
  destruct s as [ini lfd cfd st w f]. destruct f.
  unfold classes_on, mentions.
  repeat match goal with
         | |- context [if (c =? ?x)%char then _ else _] =>
             let E := fresh "E" in
             destruct (c =? x)%char eqn:E;
             [apply Ascii.eqb_eq in E; subst c |]
         end;
    destruct TICKY_TICKY; eexists; simpl;
    rewrite ?E, ?E0, ?E1, ?E2, ?E3, ?E4, ?E5, ?E6, ?E7, ?E8; simpl;
    reflexivity.
Qed.

Lemma classes_on_cons (TICKY_TICKY : bool) (c : ascii) (rest : string)
      (f : TRACE_FLAGS) :
  classes_on TICKY_TICKY rest (classes_on TICKY_TICKY (String c "") f)
  = classes_on TICKY_TICKY (String c rest) f.
Proof.
  unfold classes_on. simpl. f_equal; btauto.
Qed.

Lemma trace_flags_loop_on (TICKY_TICKY : bool) (arg : string) :
  forall s : state,
    no_minus arg = true ->
    TraceFlags (post (trace_flags_loop TICKY_TICKY arg true s))
    = classes_on TICKY_TICKY arg (TraceFlags s).
Proof.
  induction arg as [| c rest IH]; intros s Hnm.
  - simpl. unfold classes_on. simpl. rewrite andb_false_r.
    destruct (TraceFlags s); reflexivity.
  - simpl in Hnm.
    apply andb_prop in Hnm. destruct Hnm as [Hnm Hrest].
    apply andb_prop in Hnm. destruct Hnm as [Hm Hn].
    apply negb_true_iff in Hm. apply negb_true_iff in Hn.
    simpl trace_flags_loop. rewrite Hn.
    destruct (trace_flag_case_on TICKY_TICKY c s Hm) as [t Ht].
    unfold bind. rewrite Ht.
    specialize (IH (set_TraceFlags
                      (classes_on TICKY_TICKY (String c "") (TraceFlags s)) s)
                   Hrest).
    destruct (trace_flags_loop TICKY_TICKY rest true _) as [o2 s2 t2].
    simpl in IH. simpl. rewrite IH. apply classes_on_cons.
Qed.

(** X11.  A flag string without a minus sign only turns classes on.  After
    [read_trace_flags], scheduler, GC, sampled sparks and user events are on
    (the defaults); full sparks are on when the string has [a] or [f],
    timestamps when it has [t], the non-moving GC when it has [n], ticky
    when it has [T] and the program was built with ticky support; a class
    the string does not name keeps its previous setting.  The order of the
    letters and unknown letters make no difference to the flags. *)
Theorem read_trace_flags_without_minus (TICKY_TICKY : bool) (arg : string)
        (s : state) :
  no_minus arg = true ->
  let f := TraceFlags s in
  TraceFlags (post (read_trace_flags TICKY_TICKY arg s))
  = mkTraceFlags (tracing f)
                 (mentions "t" arg || timestamp f)
                 true
                 true
                 (mentions "n" arg || nonmoving_gc f)
                 true
                 (mentions "a" arg || mentions "f" arg || sparks_full f)
                 (TICKY_TICKY && mentions "T" arg || ticky f)
                 true.
Proof.
  intros Hnm f. subst f.
  rewrite read_trace_flags_eq, trace_flags_loop_on by exact Hnm.
  unfold classes_on, default_classes. simpl.
  rewrite !orb_true_r. reflexivity.
Qed.

Lemma read_trace_flags_without_minus_witness :
  no_minus "fxt" = true /\
  TraceFlags (post (read_trace_flags false "fxt" disconnected))
  = mkTraceFlags TRACE_NONE true true true false true true false true.
Proof.
  split; [reflexivity |].
  apply (read_trace_flags_without_minus false "fxt" disconnected).
  reflexivity.
Defined.

(** X12.  The idiom [-a] followed by class letters selects exactly those
    classes among the five that [a] covers: scheduler, GC, sampled sparks,
    full sparks and user events are on when named after the [-a] and off
    otherwise, whatever they were before.  Timestamps, the non-moving GC and
    ticky are not covered by [a]: they keep their previous setting unless
    named. *)
Theorem read_trace_flags_only (TICKY_TICKY : bool) (rest : string)
        (s : state) :
  no_minus rest = true ->
  let f := TraceFlags s in
  TraceFlags (post (read_trace_flags TICKY_TICKY
                                     (String "-" (String "a" rest)) s))
  = mkTraceFlags (tracing f)
                 (mentions "t" rest || timestamp f)
                 (mentions "a" rest || mentions "s" rest)
                 (mentions "a" rest || mentions "g" rest)
                 (mentions "n" rest || nonmoving_gc f)
                 (mentions "a" rest || mentions "p" rest)
                 (mentions "a" rest || mentions "f" rest)
                 (TICKY_TICKY && mentions "T" rest || ticky f)
                 (mentions "a" rest || mentions "u" rest).
Proof.
  intros Hnm f. subst f.
  rewrite read_trace_flags_eq.
  simpl trace_flags_loop. unfold bind, assign, modify, ret. simpl.
  match goal with
  | |- context [trace_flags_loop _ rest true ?st] =>
      pose proof (trace_flags_loop_on TICKY_TICKY rest st Hnm) as H;
      destruct (trace_flags_loop TICKY_TICKY rest true st) as [o2 s2 t2]
  end.
  simpl in H. simpl. rewrite H.
  unfold classes_on. simpl. rewrite !orb_false_r. reflexivity.
Qed.

Lemma read_trace_flags_only_witness :
  no_minus "p" = true /\
  TraceFlags (post (read_trace_flags false "-ap" (connected 5)))
  = mkTraceFlags TRACE_NONE false false false false true false false false.
Proof.
  split; [reflexivity |].
  apply (read_trace_flags_only false "p" (connected 5)).
  reflexivity.
Defined.

(** * Further properties of the start-up *)

Lemma endEventLogging_out (s : state) : out (endEventLogging s) = Ret tt.
Proof.
  rewrite endEventLogging_eq.
  destruct (eventLogStatus s); destruct (event_log_writer s) as [[|] |];
    reflexivity.
Qed.

Lemma bind_unfold {A B : Type} (m : M A) (f : A -> M B) (s : state) :
  bind m f s =
  match out (m s) with
  | Ret a =>
      mkRes (out (f a (post (m s)))) (post (f a (post (m s))))
            (trace (m s) ++ trace (f a (post (m s))))
  | Aborted => mkRes Aborted (post (m s)) (trace (m s))
  | Blocked => mkRes Blocked (post (m s)) (trace (m s))
  end.
Proof.
  unfold bind. destruct (m s) as [[a | |] s1 t1]; simpl; try reflexivity.
  destruct (f a s1); reflexivity.
Qed.

Lemma result_eta {A : Type} (r : result A) :
  r = mkRes (out r) (post r) (trace r).
Proof. destruct r; reflexivity. Qed.

Lemma set_initialized_same (s : state) :
  initialized s = true -> set_initialized true s = s.
Proof. destruct s; simpl; intros H; subst; reflexivity. Qed.

Lemma read_trace_flags_empty (TICKY_TICKY : bool) (s : state) :
  read_trace_flags TICKY_TICKY "" s
  = mkRes (Ret tt) (set_TraceFlags (default_classes (TraceFlags s)) s) [].
Proof. rewrite read_trace_flags_eq. reflexivity. Qed.

(** One step of a computation whose first action returns at once. *)
Ltac bind_step :=
  match goal with
  | |- context [bind ?m ?f ?s] =>
      erewrite (bind_Ret m f s) by reflexivity;
      cbv beta; cbn [out post trace]
  end.

(** [eventlog_socket_start] as a table over its paths, in terms of the
    functions it calls. *)
Lemma eventlog_socket_start_eq (TICKY_TICKY : bool)
      (sock_path : option string) (wait : bool) (env : start_env)
      (s : state) :
  eventlog_socket_start TICKY_TICKY sock_path wait env s =
  let s1 := set_initialized true s in
  let t0 := (if initialized s then [] else [EvMutexInit; EvCondInit])
              ++ match sock_path with
                 | None => [EvGetenv "GHC_EVENTLOG_SOCKET"]
                 | Some _ => []
                 end in
  match resolve_path sock_path env with
  | None => mkRes (Ret tt) s1 t0
  | Some path =>
      match eventLogStatus s with
      | EVENTLOG_NOT_SUPPORTED =>
          mkRes (Ret tt) s1 (t0 ++ [EvPrintErr "eventlog is not supported."])
      | st =>
          let e := match st with
                   | EVENTLOG_RUNNING => endEventLogging s1
                   | _ => mkRes (Ret tt) s1 []
                   end in
          let s2 := set_TraceFlags (start_classes (TraceFlags (post e)))
                                   (post e) in
          let o := open_socket path (socket_ret env) (bind_ret env)
                               (pthread_create_ret env) s2 in
          match out o with
          | Ret _ =>
              if wait then
                let w := wait_for_connection (cond_wakeups env) (post o) in
                mkRes (out w) (post w)
                      (t0 ++ trace e ++ trace o
                          ++ EvPrintf "ghc-eventlog-socket: Waiting for connection"
                          :: trace w)
              else mkRes (Ret tt) (post o) (t0 ++ trace e ++ trace o)
          | Aborted => mkRes Aborted (post o) (t0 ++ trace e ++ trace o)
          | Blocked => mkRes Blocked (post o) (t0 ++ trace e ++ trace o)
          end
      end
  end.
Proof.
  unfold eventlog_socket_start, resolve_path. cbv zeta.
  bind_step.
  assert (Hinit :
            (if negb (initialized s)
             then emit EvMutexInit;; emit EvCondInit;;
                  modify (set_initialized true)
             else ret tt) s
            = mkRes (Ret tt) (set_initialized true s)
                    (if initialized s then [] else [EvMutexInit; EvCondInit])).
  { destruct (initialized s) eqn:Ei; simpl.
    - rewrite set_initialized_same by exact Ei. reflexivity.
    - reflexivity. }
  erewrite bind_Ret by exact Hinit. cbv beta. cbn [out post trace].
  clear Hinit. destruct (initialized s); cbn [app].
  all: destruct sock_path as [p |];
    [| destruct (getenv_GHC_EVENTLOG_SOCKET env)];
    repeat bind_step; try reflexivity.
  all: cbn [eventLogStatus set_initialized];
    destruct (eventLogStatus s) eqn:Est; try reflexivity.
  all: repeat (bind_step; cbn [eventLogStatus set_initialized];
               rewrite ?Est; cbv iota).
  all: try (rewrite bind_unfold, endEventLogging_out; cbn [out post trace];
            repeat bind_step).
  all: rewrite bind_unfold, !open_socket_eq; cbv zeta;
    destruct (bind_ret env =? -1); cbn [out post trace];
    try reflexivity.
  all: destruct (pthread_create_ret env =? 0); cbn [out post trace];
    destruct wait; try bind_step; try reflexivity.
Qed.

(** [endEventLogging] always returns; it issues the hook event and writer
    events only, and touches nothing but the logging status, the installed
    writer and [client_fd]. *)
Lemma endEventLogging_frame (s : state) :
  let e := endEventLogging s in
  out e = Ret tt /\
  initialized (post e) = initialized s /\
  listen_fd (post e) = listen_fd s /\
  TraceFlags (post e) = TraceFlags s /\
  hd EvLock (trace e) = EvEndLogging /\
  forallb is_writer_event (tl (trace e)) = true.
Proof.
  cbv zeta. rewrite endEventLogging_eq.
  pose proof (writer_stop_events s) as Hw.
  destruct (eventLogStatus s); destruct (event_log_writer s) as [[|] |];
    simpl; repeat split; exact Hw.
Qed.

(** [wait_for_connection] changes nothing but [client_fd], and its events
    are the lock, the waits, the unlock and possibly [abort]. *)
Lemma wait_loop_frame (wakeups : list (Z * Z)) :
  forall s : state,
    let l := wait_loop wakeups s in
    post l = set_client_fd (client_fd (post l)) s /\
    forallb (fun e => is_cond_wait e || is_abort e) (trace l) = true.
Proof.
  induction wakeups as [| [r seen] wakeups IH]; intros s; cbv zeta;
    destruct (Z.eq_dec (client_fd s) (-1)) as [E | E];
    try (rewrite wait_loop_connected by exact E; simpl;
         rewrite set_client_fd_same; split; reflexivity).
  - rewrite wait_loop_nil by exact E. simpl.
    rewrite set_client_fd_same. split; reflexivity.
  - rewrite wait_loop_cons by exact E.
    destruct (r =? 0); [| split; reflexivity].
    destruct (IH (set_client_fd seen s)) as [Hp Ht]. simpl.
    split; [| exact Ht].
    rewrite Hp at 1. destruct s; reflexivity.
Qed.

Lemma wait_for_connection_frame (wakeups : list (Z * Z)) (s : state) :
  let w := wait_for_connection wakeups s in
  post w = set_client_fd (client_fd (post w)) s /\
  forallb (fun e => is_lock e || is_unlock e || is_cond_wait e || is_abort e)
          (trace w) = true.
Proof.
  cbv zeta. rewrite wait_for_connection_eq.
  destruct (wait_loop_frame wakeups s) as [Hp Ht].
  assert (Ht' : forallb (fun e => is_lock e || is_unlock e || is_cond_wait e
                                  || is_abort e)
                        (trace (wait_loop wakeups s)) = true).
  { clear - Ht. induction (trace (wait_loop wakeups s)) as [| e t IH];
      simpl in *; [reflexivity |].
    apply andb_prop in Ht. destruct Ht as [He Ht].
    rewrite (IH Ht), andb_true_r.
    destruct e; simpl in *; try discriminate; reflexivity. }
  destruct (out (wait_loop wakeups s)); simpl;
    rewrite ?forallb_app, ?Ht'; simpl; (split; [exact Hp | reflexivity]).
Qed.

(** The events in front of everything else in [eventlog_socket_start]. *)
Lemma start_prefix_events (s : state) (sock_path : option string) :
  let t0 := (if initialized s then [] else [EvMutexInit; EvCondInit])
              ++ match sock_path with
                 | None => [EvGetenv "GHC_EVENTLOG_SOCKET"]
                 | Some _ => []
                 end in
  existsb is_socket_op t0 = false /\
  existsb is_hook t0 = false /\
  existsb is_abort t0 = false /\
  existsb is_spawn t0 = false /\
  existsb is_cond_wait t0 = false /\
  count_ev is_init t0 = (if initialized s then 0 else 2)%nat.
Proof.
  destruct (initialized s), sock_path; repeat split.
Qed.

(** With a path and logging supported, [eventlog_socket_start] is: the
    prefix, the end of a running session if there is one, the flags, the
    socket, and the wait if asked for. *)
Lemma start_supported (TICKY_TICKY : bool) (sock_path : option string)
      (wait : bool) (env : start_env) (s : state) (path : string) :
  resolve_path sock_path env = Some path ->
  eventLogStatus s <> EVENTLOG_NOT_SUPPORTED ->
  exists e : result unit,
    (out e = Ret tt /\
     initialized (post e) = true /\
     listen_fd (post e) = listen_fd s /\
     TraceFlags (post e) = TraceFlags s /\
     forallb (fun ev => is_end ev || is_writer_event ev) (trace e) = true /\
     (eventLogStatus s = EVENTLOG_RUNNING ->
      e = endEventLogging (set_initialized true s)) /\
     (eventLogStatus s <> EVENTLOG_RUNNING ->
      e = mkRes (Ret tt) (set_initialized true s) [])) /\
    eventlog_socket_start TICKY_TICKY sock_path wait env s =
    let t0 := (if initialized s then [] else [EvMutexInit; EvCondInit])
                ++ match sock_path with
                   | None => [EvGetenv "GHC_EVENTLOG_SOCKET"]
                   | Some _ => []
                   end in
    let s2 := set_TraceFlags (start_classes (TraceFlags (post e))) (post e) in
    let o := open_socket path (socket_ret env) (bind_ret env)
                         (pthread_create_ret env) s2 in
    match out o with
    | Ret _ =>
        if wait then
          let w := wait_for_connection (cond_wakeups env) (post o) in
          mkRes (out w) (post w)
                (t0 ++ trace e ++ trace o
                    ++ EvPrintf "ghc-eventlog-socket: Waiting for connection"
                    :: trace w)
        else mkRes (Ret tt) (post o) (t0 ++ trace e ++ trace o)
    | Aborted => mkRes Aborted (post o) (t0 ++ trace e ++ trace o)
    | Blocked => mkRes Blocked (post o) (t0 ++ trace e ++ trace o)
    end.
Proof.
  intros Hres Hsup.
  rewrite eventlog_socket_start_eq. cbv zeta. rewrite Hres.
  destruct (eventLogStatus s) eqn:Est; [contradiction | |].
  - exists (mkRes (Ret tt) (set_initialized true s) []).
    split; [| reflexivity].
    repeat split; intros; congruence.
  - exists (endEventLogging (set_initialized true s)).
    split; [| reflexivity].
    destruct (endEventLogging_frame (set_initialized true s))
      as (Ho & Hi & Hl & Hf & Hh & Ht).
    split; [exact Ho |]. split; [exact Hi |]. split; [exact Hl |].
    split; [exact Hf |]. split; [| split; [reflexivity | congruence]].
    destruct (trace (endEventLogging (set_initialized true s)))
      as [| ev t]; [reflexivity |].
    simpl in Hh, Ht. subst ev. simpl.
    clear - Ht. induction t as [| e t IH]; simpl in *; [reflexivity |].
    apply andb_prop in Ht. destruct Ht as [He Ht].
    rewrite He, orb_true_r, (IH Ht). reflexivity.
Qed.

(** X13.  When the run-time system reports that the event log is not
    supported, [eventlog_socket_start] with a path (given or from the
    environment) prints one error line and returns: nothing is done to any
    socket, no thread is started, no hook is called, and the state is as
    before apart from the one-time initialisation. *)
Theorem start_not_supported (TICKY_TICKY : bool) (sock_path : option string)
        (wait : bool) (env : start_env) (s : state) (path : string) :
  resolve_path sock_path env = Some path ->
  eventLogStatus s = EVENTLOG_NOT_SUPPORTED ->
  let r := eventlog_socket_start TICKY_TICKY sock_path wait env s in
  out r = Ret tt /\
  post r = set_initialized true s /\
  existsb is_socket_op (trace r) = false /\
  existsb is_hook (trace r) = false /\
  last (trace r) EvLock = EvPrintErr "eventlog is not supported.".
Proof.
  intros Hres Hst. cbv zeta.
  rewrite eventlog_socket_start_eq. cbv zeta. rewrite Hres, Hst.
  destruct (initialized s), sock_path; repeat split.
Qed.

Lemma start_not_supported_witness :
  let s := initial_state EVENTLOG_NOT_SUPPORTED None no_flags in
  let r := eventlog_socket_start false (Some "/tmp/test.sock") true
                                 (mkEnv None 4 0 0 []) s in
  out r = Ret tt /\ existsb is_socket_op (trace r) = false.
Proof.
  pose proof (start_not_supported
                false (Some "/tmp/test.sock") true (mkEnv None 4 0 0 [])
                (initial_state EVENTLOG_NOT_SUPPORTED None no_flags)
                "/tmp/test.sock" eq_refl eq_refl) as [H1 [_ [H3 _]]].
  split; [exact H1 | exact H3].
Defined.

Lemma open_socket_frame (sock_path : string)
      (socket_ret bind_ret create_ret : Z) (s : state) :
  let o := open_socket sock_path socket_ret bind_ret create_ret s in
  post o = set_listen_fd socket_ret s /\
  (out o = Aborted <-> bind_ret = -1) /\
  (out o = Ret tt <-> bind_ret <> -1) /\
  (existsb is_spawn (trace o) = true <-> bind_ret <> -1) /\
  (existsb is_abort (trace o) = true <-> bind_ret = -1) /\
  (bind_ret = -1 -> last (trace o) EvLock = EvAbort) /\
  existsb is_hook (trace o) = false /\
  existsb is_cond_wait (trace o) = false /\
  count_ev is_init (trace o) = 0%nat /\
  hd EvLock (trace o) = EvSocket socket_ret.
Proof.
  cbv zeta. rewrite open_socket_eq. cbv zeta.
  destruct (Z.eqb_spec bind_ret (-1)) as [Eb | Eb];
    [| destruct (create_ret =? 0)]; simpl;
    repeat split; try (intros H; try discriminate H; try congruence);
    try reflexivity; try contradiction; try assumption.
Qed.

Lemma end_events_class (t : list event) :
  forallb (fun ev => is_end ev || is_writer_event ev) t = true ->
  existsb is_spawn t = false /\
  existsb is_cond_wait t = false /\
  existsb is_abort t = false /\
  count_ev is_init t = 0%nat.
Proof.
  unfold count_ev. induction t as [| e t IH]; simpl; [auto |].
  intros H. apply andb_prop in H. destruct H as [He Ht].
  destruct (IH Ht) as (H1 & H2 & H3 & H4).
  destruct e; simpl in *; try discriminate; auto.
Qed.

Lemma wait_events_class (t : list event) :
  forallb (fun e => is_lock e || is_unlock e || is_cond_wait e || is_abort e)
          t = true ->
  existsb is_spawn t = false /\ count_ev is_init t = 0%nat.
Proof.
  unfold count_ev. induction t as [| e t IH]; simpl; [auto |].
  intros H. apply andb_prop in H. destruct H as [He Ht].
  destruct (IH Ht) as (H1 & H2).
  destruct e; simpl in *; try discriminate; auto.
Qed.

(** X14.  A path is given (or found in the environment), logging is
    supported and [bind] fails: [eventlog_socket_start] aborts the process.
    The abort is the last event; no listener thread is started and, even if
    the caller asked to wait, no wait is entered. *)
Theorem start_bind_failure_aborts (TICKY_TICKY : bool)
        (sock_path : option string) (wait : bool) (env : start_env)
        (s : state) (path : string) :
  resolve_path sock_path env = Some path ->
  eventLogStatus s <> EVENTLOG_NOT_SUPPORTED ->
  bind_ret env = -1 ->
  let r := eventlog_socket_start TICKY_TICKY sock_path wait env s in
  out r = Aborted /\
  last (trace r) EvLock = EvAbort /\
  existsb is_spawn (trace r) = false /\
  existsb is_cond_wait (trace r) = false.
Proof.
  intros Hres Hsup Hb. cbv zeta.
  destruct (start_supported TICKY_TICKY sock_path wait env s path Hres Hsup)
    as [e [(Ho & _ & _ & _ & Hcls & _) Heq]].
  rewrite Heq. cbv zeta.
  destruct (end_events_class (trace e) Hcls) as (E1 & E2 & _ & _).
  destruct (start_prefix_events s sock_path) as (_ & _ & _ & P4 & P5 & _).
  cbv zeta in P4, P5.
  match goal with
  | |- context [open_socket ?p ?a ?b ?c ?st] =>
      destruct (open_socket_frame p a b c st)
        as (_ & Ha & _ & Hsp & _ & Hlast & _ & Hcw & _);
      cbv zeta in Ha, Hsp, Hlast, Hcw;
      assert (Hns : existsb is_spawn (trace (open_socket p a b c st)) = false)
        by (destruct (existsb is_spawn (trace (open_socket p a b c st)));
            [exfalso; apply (proj1 Hsp); [reflexivity | exact Hb]
            | reflexivity]);
      assert (Hne : trace (open_socket p a b c st) <> [])
        by (rewrite open_socket_eq; cbv zeta;
            destruct (b =? -1); [| destruct (c =? 0)]; discriminate);
      rewrite (proj2 Ha Hb)
  end.
  cbn [out post trace].
  split; [reflexivity |]. split; [| split].
  - rewrite !app_assoc.
    match goal with
    | |- last (?a ++ ?t) _ = _ =>
        specialize (Hlast Hb);
        destruct t as [| x t'] using rev_ind; [contradiction |];
        rewrite app_assoc, last_last;
        rewrite last_last in Hlast; exact Hlast
    end.
  - rewrite existsb_app, P4, existsb_app, E1, Hns. reflexivity.
  - rewrite existsb_app, P5, existsb_app, E2, Hcw. reflexivity.
Qed.

Lemma start_bind_failure_aborts_witness :
  let r := eventlog_socket_start false (Some "/tmp/test.sock") true
                                 (mkEnv None 4 (-1) 0 []) disconnected in
  out r = Aborted /\ existsb is_spawn (trace r) = false.
Proof.
  pose proof (start_bind_failure_aborts
                false (Some "/tmp/test.sock") true (mkEnv None 4 (-1) 0 [])
                disconnected "/tmp/test.sock" eq_refl
                ltac:(discriminate) eq_refl) as [H1 [_ [H3 _]]].
  split; [exact H1 | exact H3].
Defined.

(** X15.  On every path that gets as far as opening the socket, whatever
    happens afterwards (return, abort on [bind], or waiting), the trace
    flags are set for the event log: [tracing] is [TRACE_EVENTLOG],
    scheduler, GC, sampled sparks and user events are on, and timestamps,
    the non-moving GC, full sparks and ticky are as they were. *)
Theorem start_sets_trace_flags (TICKY_TICKY : bool)
        (sock_path : option string) (wait : bool) (env : start_env)
        (s : state) (path : string) :
  resolve_path sock_path env = Some path ->
  eventLogStatus s <> EVENTLOG_NOT_SUPPORTED ->
  let f := TraceFlags s in
  TraceFlags (post (eventlog_socket_start TICKY_TICKY sock_path wait env s))
  = mkTraceFlags TRACE_EVENTLOG (timestamp f) true true (nonmoving_gc f)
                 true (sparks_full f) (ticky f) true.
Proof.
  intros Hres Hsup. cbv zeta.
  destruct (start_supported TICKY_TICKY sock_path wait env s path Hres Hsup)
    as [e [(_ & _ & _ & Hf & _) Heq]].
  rewrite Heq. cbv zeta.
  match goal with
  | |- context [open_socket ?p ?a ?b ?c ?st] =>
      destruct (open_socket_frame p a b c st) as [Hpo _];
      cbv zeta in Hpo;
      pose proof (wait_for_connection_frame
                    (cond_wakeups env) (post (open_socket p a b c st)))
        as [Hpw _];
      cbv zeta in Hpw;
      destruct (out (open_socket p a b c st))
  end;
    try destruct wait; cbn [post];
    try rewrite Hpw; rewrite Hpo; cbn; rewrite Hf; reflexivity.
Qed.

Lemma start_sets_trace_flags_witness :
  TraceFlags (post (eventlog_socket_start false (Some "/tmp/test.sock") false
                                          (mkEnv None 4 0 0 []) disconnected))
  = mkTraceFlags TRACE_EVENTLOG false true true false true false false true.
Proof.
  apply (start_sets_trace_flags false (Some "/tmp/test.sock") false
                                (mkEnv None 4 0 0 []) disconnected
                                "/tmp/test.sock" eq_refl).
  discriminate.
Defined.

(** X16.  The blocking start returns only with a client connected: when a
    call with [wait] set returns on a path that opened the socket, [bind]
    had succeeded and [client_fd] holds a value other than -1. *)
Theorem start_wait_returns_connected (TICKY_TICKY : bool)
        (sock_path : option string) (env : start_env) (s : state)
        (path : string) :
  resolve_path sock_path env = Some path ->
  eventLogStatus s <> EVENTLOG_NOT_SUPPORTED ->
  out (eventlog_socket_start TICKY_TICKY sock_path true env s) = Ret tt ->
  bind_ret env <> -1 /\
  client_fd (post (eventlog_socket_start TICKY_TICKY sock_path true env s))
  <> -1.
Proof.
  intros Hres Hsup.
  destruct (start_supported TICKY_TICKY sock_path true env s path Hres Hsup)
    as [e [_ Heq]].
  rewrite Heq. cbv zeta.
  match goal with
  | |- context [open_socket ?p ?a ?b ?c ?st] =>
      destruct (open_socket_frame p a b c st) as (_ & _ & Hr & _);
      cbv zeta in Hr;
      destruct (out (open_socket p a b c st)) as [[] | |] eqn:Eo
  end; cbn [out post]; try discriminate.
  intros Hw. split; [apply Hr; reflexivity |].
  rewrite wait_for_connection_eq in Hw |- *.
  match goal with
  | |- context [wait_loop ?w ?st] =>
      pose proof (wait_loop_returns w st) as Hl;
      destruct (out (wait_loop w st)) as [[] | |]
  end; cbn [out post] in *; try discriminate.
  apply Hl. reflexivity.
Qed.

Lemma start_wait_returns_connected_witness :
  let r := eventlog_socket_start false (Some "/tmp/test.sock") true
                                 (mkEnv None 4 0 0 [(0, -1); (0, 7)])
                                 disconnected in
  out r = Ret tt /\ client_fd (post r) <> -1.
Proof.
  assert (Ho : out (eventlog_socket_start
                      false (Some "/tmp/test.sock") true
                      (mkEnv None 4 0 0 [(0, -1); (0, 7)]) disconnected)
               = Ret tt) by (vm_compute; reflexivity).
  split; [exact Ho |].
  apply (start_wait_returns_connected
           false (Some "/tmp/test.sock")
           (mkEnv None 4 0 0 [(0, -1); (0, 7)]) disconnected
           "/tmp/test.sock" eq_refl ltac:(discriminate) Ho).
Defined.

(** X17.  When logging is already running, [eventlog_socket_start] ends
    that session before it touches any socket: the end hook is the first
    hook or socket event of the call and is called once, the start hook is
    not called (the listener calls it when a client connects), and on return
    logging is no longer running and no writer is installed.  If the running
    writer was this socket writer, its client is dropped; a foreign writer
    leaves [client_fd] alone. *)
Theorem start_ends_running_session (TICKY_TICKY : bool)
        (sock_path : option string) (env : start_env) (s : state)
        (path : string) :
  resolve_path sock_path env = Some path ->
  eventLogStatus s = EVENTLOG_RUNNING ->
  bind_ret env <> -1 ->
  let r := eventlog_socket_start TICKY_TICKY sock_path false env s in
  out r = Ret tt /\
  eventLogStatus (post r) = EVENTLOG_NOT_CONFIGURED /\
  event_log_writer (post r) = None /\
  listen_fd (post r) = socket_ret env /\
  client_fd (post r)
  = match event_log_writer s with
    | Some socket_writer => -1
    | _ => client_fd s
    end /\
  find (fun e => is_hook e || is_socket_op e) (trace r) = Some EvEndLogging /\
  count_ev is_end (trace r) = 1%nat /\
  count_ev is_start (trace r) = 0%nat.
Proof.
  intros Hres Hst Hb. cbv zeta.
  rewrite eventlog_socket_start_eq. cbv zeta. rewrite Hres, Hst.
  rewrite endEventLogging_eq.
  cbn [eventLogStatus event_log_writer set_initialized]. rewrite Hst.
  rewrite open_socket_eq. cbv zeta.
  destruct (Z.eqb_spec (bind_ret env) (-1)); [contradiction |].
  destruct (event_log_writer s) as [[|] |];
    rewrite ?writer_stop_eq;
    cbn [client_fd set_initialized];
    try destruct (client_fd s >=? 0);
    destruct (pthread_create_ret env =? 0);
    destruct (initialized s), sock_path;
    repeat split.
Qed.

Lemma start_ends_running_session_witness :
  let r := eventlog_socket_start false (Some "/tmp/test.sock") false
                                 (mkEnv None 4 0 0 []) (connected 5) in
  out r = Ret tt /\
  eventLogStatus (post r) = EVENTLOG_NOT_CONFIGURED /\
  client_fd (post r) = -1.
Proof.
  pose proof (start_ends_running_session
                false (Some "/tmp/test.sock") (mkEnv None 4 0 0 [])
                (connected 5) "/tmp/test.sock" eq_refl eq_refl
                ltac:(discriminate)) as [H1 [H2 [_ [_ [H5 _]]]]].
  split; [exact H1 |]. split; [exact H2 | exact H5].
Defined.

(** X18.  The environment variable is a fallback only.  With a NULL path
    and [GHC_EVENTLOG_SOCKET] set to [p], the call ends in the same outcome
    and state as with [p] passed as the path, and makes the same calls in
    the same order, the [getenv] apart, which comes right after the one-time
    initialisation.  With a path passed, the variable is not read and its
    value makes no difference. *)
Theorem start_env_fallback (TICKY_TICKY wait : bool) (env : start_env)
        (s : state) (p : string) :
  getenv_GHC_EVENTLOG_SOCKET env = Some p ->
  let rN := eventlog_socket_start TICKY_TICKY None wait env s in
  let rS := eventlog_socket_start TICKY_TICKY (Some p) wait env s in
  let pre := if initialized s then [] else [EvMutexInit; EvCondInit] in
  out rN = out rS /\
  post rN = post rS /\
  (exists rest,
      trace rS = pre ++ rest /\
      trace rN = pre ++ EvGetenv "GHC_EVENTLOG_SOCKET" :: rest) /\
  forall other : option string,
    eventlog_socket_start TICKY_TICKY (Some p) wait
      (mkEnv other (socket_ret env) (bind_ret env) (pthread_create_ret env)
             (cond_wakeups env)) s
    = rS.
Proof.
  intros Hge. cbv zeta.
  assert (Hmain :
            out (eventlog_socket_start TICKY_TICKY None wait env s)
            = out (eventlog_socket_start TICKY_TICKY (Some p) wait env s) /\
            post (eventlog_socket_start TICKY_TICKY None wait env s)
            = post (eventlog_socket_start TICKY_TICKY (Some p) wait env s) /\
            exists rest,
              trace (eventlog_socket_start TICKY_TICKY (Some p) wait env s)
              = (if initialized s then [] else [EvMutexInit; EvCondInit])
                  ++ rest /\
              trace (eventlog_socket_start TICKY_TICKY None wait env s)
              = (if initialized s then [] else [EvMutexInit; EvCondInit])
                  ++ EvGetenv "GHC_EVENTLOG_SOCKET" :: rest).
  { rewrite !eventlog_socket_start_eq. unfold resolve_path. cbv zeta.
    rewrite Hge.
    destruct (initialized s); destruct (eventLogStatus s);
      try (split; [reflexivity |]; split; [reflexivity |];
           eexists; split; reflexivity);
      match goal with
      | |- context [out (open_socket ?a ?b ?c ?d ?st)] =>
          destruct (out (open_socket a b c d st))
      end;
      try destruct wait;
      (split; [reflexivity |]; split; [reflexivity |];
       eexists; split; reflexivity). }
  destruct Hmain as [H1 [H2 H3]].
  split; [exact H1 |]. split; [exact H2 |]. split; [exact H3 |].
  intros other. rewrite !eventlog_socket_start_eq. reflexivity.
Qed.

Lemma start_env_fallback_witness :
  let env := mkEnv (Some "/tmp/test.sock") 4 0 0 [] in
  out (eventlog_socket_start false None false env disconnected)
  = out (eventlog_socket_start false (Some "/tmp/test.sock") false env
                               disconnected) /\
  post (eventlog_socket_start false None false env disconnected)
  = post (eventlog_socket_start false (Some "/tmp/test.sock") false env
                                disconnected).
Proof.
  pose proof (start_env_fallback
                false false (mkEnv (Some "/tmp/test.sock") 4 0 0 [])
                disconnected "/tmp/test.sock" eq_refl) as [H1 [H2 _]].
  split; [exact H1 | exact H2].
Defined.

(** X19.  The non-blocking start never waits.  Called with [wait] unset,
    [eventlog_socket_start] either returns or aborts, and enters no
    condition wait.  It aborts exactly when there is a path, logging is
    supported and [bind] fails; it creates the listener thread (calls
    [pthread_create]) exactly when there is a path, logging is supported and
    [bind] succeeds. *)
Theorem start_nowait_outcome (TICKY_TICKY : bool)
        (sock_path : option string) (env : start_env) (s : state) :
  let r := eventlog_socket_start TICKY_TICKY sock_path false env s in
  let ready := resolve_path sock_path env <> None /\
               eventLogStatus s <> EVENTLOG_NOT_SUPPORTED in
  (out r = Ret tt \/ out r = Aborted) /\
  (out r = Aborted <-> ready /\ bind_ret env = -1) /\
  (existsb is_spawn (trace r) = true <-> ready /\ bind_ret env <> -1) /\
  existsb is_cond_wait (trace r) = false.
Proof.
  cbv zeta.
  destruct (start_prefix_events s sock_path) as (_ & _ & _ & P4 & P5 & _).
  cbv zeta in P4, P5.
  destruct (resolve_path sock_path env) as [path |] eqn:Hres.
  - destruct (eventLogStatus s) eqn:Est.
    + rewrite eventlog_socket_start_eq. cbv zeta. rewrite Hres, Est.
      cbn [out trace]. rewrite existsb_app, P4, existsb_app, P5. simpl.
      split; [auto |]. split; [| split; [| reflexivity]];
        split; try discriminate; intros [[_ H] _]; congruence.
    + assert (Hsup : eventLogStatus s <> EVENTLOG_NOT_SUPPORTED)
        by (rewrite Est; discriminate).
      destruct (start_supported TICKY_TICKY sock_path false env s path
                                Hres Hsup)
        as [e [(_ & _ & _ & _ & Hcls & _) Heq]].
      rewrite Heq. cbv zeta.
      destruct (end_events_class (trace e) Hcls) as (E1 & E2 & _ & _).
      match goal with
      | |- context [open_socket ?p ?a ?b ?c ?st] =>
          destruct (open_socket_frame p a b c st)
            as (_ & Ha & Hr & Hsp & _ & _ & _ & Hcw & _);
          cbv zeta in Ha, Hr, Hsp, Hcw;
          destruct (out (open_socket p a b c st)) as [[] | |] eqn:Eo
      end; cbn [out trace];
        rewrite existsb_app, P4, existsb_app, E1;
        rewrite existsb_app, P5, existsb_app, E2, Hcw; cbn [orb].
      * split; [auto |]. split; [| split; [| reflexivity]].
        -- split; [discriminate |]. intros [_ Hb].
           apply (proj1 Hr) in Hb; [contradiction | reflexivity].
        -- rewrite Hsp. split; intros H.
           ++ split; [split; [discriminate | rewrite <- Est; exact Hsup] |].
              exact H.
           ++ exact (proj2 H).
      * split; [auto |]. split; [| split; [| reflexivity]].
        -- split; [| reflexivity]. intros _.
           split; [split; [discriminate | rewrite <- Est; exact Hsup] |].
           apply Ha. reflexivity.
        -- rewrite Hsp. split; intros H.
           ++ exfalso. apply H. apply Ha. reflexivity.
           ++ exact (proj2 H).
      * exfalso. destruct (Z.eq_dec (bind_ret env) (-1)) as [Hb | Hb].
        -- apply Ha in Hb. discriminate Hb.
        -- apply Hr in Hb. discriminate Hb.
    + assert (Hsup : eventLogStatus s <> EVENTLOG_NOT_SUPPORTED)
        by (rewrite Est; discriminate).
      destruct (start_supported TICKY_TICKY sock_path false env s path
                                Hres Hsup)
        as [e [(_ & _ & _ & _ & Hcls & _) Heq]].
      rewrite Heq. cbv zeta.
      destruct (end_events_class (trace e) Hcls) as (E1 & E2 & _ & _).
      match goal with
      | |- context [open_socket ?p ?a ?b ?c ?st] =>
          destruct (open_socket_frame p a b c st)
            as (_ & Ha & Hr & Hsp & _ & _ & _ & Hcw & _);
          cbv zeta in Ha, Hr, Hsp, Hcw;
          destruct (out (open_socket p a b c st)) as [[] | |] eqn:Eo
      end; cbn [out trace];
        rewrite existsb_app, P4, existsb_app, E1;
        rewrite existsb_app, P5, existsb_app, E2, Hcw; cbn [orb].
      * split; [auto |]. split; [| split; [| reflexivity]].
        -- split; [discriminate |]. intros [_ Hb].
           apply (proj1 Hr) in Hb; [contradiction | reflexivity].
        -- rewrite Hsp. split; intros H.
           ++ split; [split; [discriminate | rewrite <- Est; exact Hsup] |].
              exact H.
           ++ exact (proj2 H).
      * split; [auto |]. split; [| split; [| reflexivity]].
        -- split; [| reflexivity]. intros _.
           split; [split; [discriminate | rewrite <- Est; exact Hsup] |].
           apply Ha. reflexivity.
        -- rewrite Hsp. split; intros H.
           ++ exfalso. apply H. apply Ha. reflexivity.
           ++ exact (proj2 H).
      * exfalso. destruct (Z.eq_dec (bind_ret env) (-1)) as [Hb | Hb].
        -- apply Ha in Hb. discriminate Hb.
        -- apply Hr in Hb. discriminate Hb.
  - rewrite eventlog_socket_start_eq. cbv zeta. rewrite Hres.
    cbn [out trace]. rewrite P4, P5.
    split; [auto |]. split; [| split; [| reflexivity]];
      split; try discriminate; intros [[H _] _]; congruence.
Qed.

(** X20.  The mutex and the condition variable are initialised once.
    Whatever the arguments and whatever the outcome, after
    [eventlog_socket_start] the flag [initialized] is set; the call
    initialises both objects when the flag was clear and neither when it
    was set, so a second call never initialises them again. *)
Theorem start_initializes_once (TICKY_TICKY : bool)
        (sock_path : option string) (wait : bool) (env : start_env)
        (s : state) :
  let r := eventlog_socket_start TICKY_TICKY sock_path wait env s in
  initialized (post r) = true /\
  count_ev is_init (trace r) = (if initialized s then 0 else 2)%nat /\
  count_ev is_init
    (trace (eventlog_socket_start TICKY_TICKY sock_path wait env (post r)))
  = 0%nat.
Proof.
  assert (Hone : forall s0 : state,
             let r := eventlog_socket_start TICKY_TICKY sock_path wait env s0 in
             initialized (post r) = true /\
             count_ev is_init (trace r)
             = (if initialized s0 then 0 else 2)%nat).
  { intros s0. cbv zeta.
    destruct (start_prefix_events s0 sock_path) as (_ & _ & _ & _ & _ & P6).
    cbv zeta in P6.
    destruct (resolve_path sock_path env) as [path |] eqn:Hres;
      [destruct (eventLogStatus s0) eqn:Est |].
    1: { rewrite eventlog_socket_start_eq. cbv zeta. rewrite Hres, Est.
         cbn [post trace]. rewrite count_ev_app, P6.
         split; [reflexivity |]. unfold count_ev. simpl.
         destruct (initialized s0); reflexivity. }
    3: { rewrite eventlog_socket_start_eq. cbv zeta. rewrite Hres.
         cbn [post trace]. split; [reflexivity | exact P6]. }
    all: assert (Hsup : eventLogStatus s0 <> EVENTLOG_NOT_SUPPORTED)
      by (rewrite Est; discriminate);
      destruct (start_supported TICKY_TICKY sock_path wait env s0 path
                                Hres Hsup)
        as [e [(_ & Hi & _ & _ & Hcls & _) Heq]];
      rewrite Heq; cbv zeta;
      destruct (end_events_class (trace e) Hcls) as (_ & _ & _ & E4);
      match goal with
      | |- context [open_socket ?p ?a ?b ?c ?st] =>
          destruct (open_socket_frame p a b c st)
            as (Hpo & _ & _ & _ & _ & _ & _ & _ & Hci & _);
          cbv zeta in Hpo, Hci;
          destruct (wait_for_connection_frame
                      (cond_wakeups env) (post (open_socket p a b c st)))
            as [Hpw Htw];
          cbv zeta in Hpw, Htw;
          destruct (wait_events_class _ Htw) as [_ W2];
          destruct (out (open_socket p a b c st))
      end;
      try destruct wait; cbn [post trace];
      (split;
       [try rewrite Hpw; rewrite Hpo; exact Hi
       | rewrite count_ev_app, P6, count_ev_app, E4, ?count_ev_app, Hci;
         try (change (EvPrintf ?m :: ?t) with ([EvPrintf m] ++ t);
              rewrite count_ev_app, W2);
         unfold count_ev; simpl; destruct (initialized s0); reflexivity]). }
  cbv zeta. destruct (Hone s) as [H1 H2].
  split; [exact H1 |]. split; [exact H2 |].
  destruct (Hone (post (eventlog_socket_start TICKY_TICKY sock_path wait env s)))
    as [_ H3].
  rewrite H3, H1. reflexivity.
Qed.

(** X21.  Edges of [wait_for_connection].  With a client already recorded
    it returns at once, without waiting on the condition variable.  With
    none recorded, a [pthread_cond_wait] that returns non-zero fails the
    assertion: the process aborts, still holding the mutex, whatever
    [client_fd] holds by then. *)
Theorem wait_for_connection_edges (wakeups : list (Z * Z)) (s : state) :
  (client_fd s <> -1 ->
   wait_for_connection wakeups s = mkRes (Ret tt) s [EvLock; EvUnlock]) /\
  (client_fd s = -1 ->
   forall r seen : Z,
     r <> 0 ->
     wait_for_connection ((r, seen) :: wakeups) s
     = mkRes Aborted (set_client_fd seen s) [EvLock; EvCondWait r; EvAbort]).
Proof.
  split.
  - intros Hc. rewrite wait_for_connection_eq.
    rewrite wait_loop_connected by exact Hc. reflexivity.
  - intros Hc r seen Hr. rewrite wait_for_connection_eq.
    rewrite wait_loop_cons by exact Hc.
    destruct (Z.eqb_spec r 0); [contradiction | reflexivity].
Qed.

Lemma wait_for_connection_edges_witness :
  wait_for_connection [(0, 9)] (connected 5)
  = mkRes (Ret tt) (connected 5) [EvLock; EvUnlock] /\
  wait_for_connection [(22, 7)] disconnected
  = mkRes Aborted (set_client_fd 7 disconnected)
          [EvLock; EvCondWait 22; EvAbort].
Proof.
  split.
  - apply (proj1 (wait_for_connection_edges [(0, 9)] (connected 5))).
    discriminate.
  - apply (proj2 (wait_for_connection_edges [] disconnected) eq_refl 22 7).
    discriminate.
Defined.

(** * From start-up to delivery *)







(** X24.  From start-up to the listener.  After a non-blocking
    [eventlog_socket_start] on the initial state of the program, with
    logging supported but not running, [bind] succeeding and
    [pthread_create] succeeding (returning 0), the listener it created works
    on the socket the start created: a whole session ([listen], [accept] of
    [fd], waits, hangup, teardown) runs on the descriptor [socket] returned,
    with a backlog of 5, and leaves the state as the start left it. *)
Theorem start_then_session (TICKY_TICKY : bool) (path : string)
        (env : start_env) (f : TRACE_FLAGS) (fd : Z) (retries : nat) :
  bind_ret env <> -1 ->
  pthread_create_ret env = 0 ->
  let r := eventlog_socket_start TICKY_TICKY (Some path) false env
             (initial_state EVENTLOG_NOT_CONFIGURED None f) in
  out r = Ret tt /\
  listen_fd (post r) = socket_ret env /\
  run (session_inputs fd retries) (listener_init (post r))
  = Some (listener_init (post r),
          session_trace (socket_ret env) fd retries) /\
  existsb is_spawn (trace r) = true /\
  existsb (fun e => match e with
                    | EvPrintErr _ => true
                    | _ => false
                    end) (trace r) = false /\
  hd EvLock (session_trace (socket_ret env) fd retries)
  = EvListen (socket_ret env) 5 0.
Proof.
  intros Hb Hc. cbv zeta.
  rewrite eventlog_socket_start_eq. cbv zeta. unfold resolve_path.
  cbn [eventLogStatus initial_state].
  rewrite open_socket_eq. cbv zeta.
  destruct (Z.eqb_spec (bind_ret env) (-1)); [contradiction |].
  rewrite Hc. cbn [Z.eqb out post trace].
  split; [reflexivity |]. split; [reflexivity |].
  split; [| repeat split].
  match goal with
  | |- run _ (listener_init ?st) = _ =>
      change (socket_ret env) with (listen_fd st) at 2;
      apply run_session; reflexivity
  end.
Qed.

Lemma start_then_session_witness :
  let r := eventlog_socket_start false (Some "/tmp/test.sock") false
                                 (mkEnv None 4 0 0 [])
                                 (initial_state EVENTLOG_NOT_CONFIGURED None
                                                no_flags) in
  out r = Ret tt /\
  run (session_inputs 7 1) (listener_init (post r))
  = Some (listener_init (post r), session_trace 4 7 1).
Proof.
  pose proof (start_then_session false "/tmp/test.sock"
                                 (mkEnv None 4 0 0 []) no_flags 7 1
                                 ltac:(discriminate) eq_refl)
    as [H1 [_ [H3 _]]].
  split; [exact H1 | exact H3].
Defined.
